(** * deployd: lib/resources/collection.js

    A shallow embedding of the [Collection] resource: the schema engine
    ([validate], [sanitize]), the listener engine ([execListener]) and the
    CRUD operations ([find], [remove], [save]), followed by the properties
    the specification states about them.

    Conventions of the embedding.
    - A JavaScript object used as a record, a query, a schema or an error
      map is a [gmap string _]; reading a missing key gives [undefined].
    - An array is a list of optional elements; [None] is a hole (what
      [delete array[i]] leaves behind).
    - A number is an IEEE 754 double, as [spec_float] (53-bit mantissa).
    - Function values occur only as callbacks and are kept apart from
      [Value]: records, queries and store results hold no functions.
    - Callback-passing code is kept in continuation-passing style: an
      operation is a tree of store calls whose leaves are the invocations
      of the caller's callback (type [Action]).
    - Objects are values here: where the source shares an object (the
      record bound to [this] and to [data], an element and its array) the
      model writes the update back where the source would see it. The
      records of one list are taken to be distinct objects.

    The transport handler ([handle]) and the wrapping of
    [settings.resources] for the script runner ([clean]) are modelled
    apart, in the modules [Transport] and [Resources]. *)

From Stdlib Require Import ZArith String Ascii.
From Stdlib Require Import Floats.SpecFloat.
From stdpp Require Import gmap strings list fin_maps.

#[local] Set Warnings "-register-all".
#[local] Open Scope string_scope.

(** ** JavaScript values *)

Module JS.

Definition Number := spec_float.

Definition NaN : Number := S754_nan.

Inductive Value : Type :=
| VUndefined
| VNull
| VBool (b : bool)
| VNumber (n : Number)
| VString (s : string)
| VObject (fields : gmap string Value)
| VArray (elems : list (option Value))
| VDate (ms : Number).

Abbreviation Obj := (gmap string Value).

(** [typeof v] *)
Definition typeof (v : Value) : string :=
  match v with
  | VUndefined => "undefined"
  | VNull => "object"
  | VBool _ => "boolean"
  | VNumber _ => "number"
  | VString _ => "string"
  | VObject _ => "object"
  | VArray _ => "object"
  | VDate _ => "object"
  end.

(** ToBoolean: what [if (v)], [!v], [a || b] and [c ? x : y] test. *)
Definition truthy (v : Value) : bool :=
  match v with
  | VUndefined | VNull => false
  | VBool b => b
  | VNumber (S754_zero _) | VNumber S754_nan => false
  | VNumber _ => true
  | VString s => negb (String.eqb s "")
  | VObject _ | VArray _ | VDate _ => true
  end.

(** [a || b] *)
Definition or_else (a b : Value) : Value := if truthy a then a else b.

(** [o[key]] on an object: a missing key reads as [undefined]. *)
Definition get (o : Obj) (key : string) : Value := default VUndefined (o !! key).

(** [Object.keys(o)]; the enumeration order of the model is the map's own,
    every key occurs once. *)
Definition Object_keys {A} (o : gmap string A) : list string := (map_to_list o).*1.

(** *** parseInt (ECMAScript 15.1.2.2, no radix argument)

    [parseInt] first skips the white space and line terminator characters
    the string starts with: TAB, LF, VT, FF, CR, SP, U+00A0, U+FEFF,
    U+2028, U+2029 and the space separators of Unicode (U+1680, U+2000 to
    U+200A, U+202F, U+205F, U+3000; U+180E has not been one since Unicode
    6.3 and is not skipped). A string is held here as a sequence of bytes;
    the characters to skip that lie outside ASCII are recognised in their
    UTF-8 encoding, of two or three bytes. It then reads a sign, the prefix
    0x or 0X, which selects radix 16 (a leading 0 alone does not select
    radix 8), and the longest run of digits of the radix. *)

(** TAB, LF, VT, FF, CR and SP. *)
Definition white_space_1 (b1 : nat) : bool :=
  (b1 =? 32)%nat || ((9 <=? b1)%nat && (b1 <=? 13)%nat).

(** U+00A0. *)
Definition white_space_2 (b1 b2 : nat) : bool :=
  (b1 =? 194)%nat && (b2 =? 160)%nat.

(** U+1680; U+2000 to U+200A, U+2028, U+2029 and U+202F; U+205F; U+3000;
    U+FEFF. *)
Definition white_space_3 (b1 b2 b3 : nat) : bool :=
  ((b1 =? 225)%nat && (b2 =? 154)%nat && (b3 =? 128)%nat)
  || ((b1 =? 226)%nat && (b2 =? 128)%nat &&
      (((128 <=? b3)%nat && (b3 <=? 138)%nat)
       || (b3 =? 168)%nat || (b3 =? 169)%nat || (b3 =? 175)%nat))
  || ((b1 =? 226)%nat && (b2 =? 129)%nat && (b3 =? 159)%nat)
  || ((b1 =? 227)%nat && (b2 =? 128)%nat && (b3 =? 128)%nat)
  || ((b1 =? 239)%nat && (b2 =? 187)%nat && (b3 =? 191)%nat).

Fixpoint trim_left (s : string) : string :=
  match s with
  | String c1 s1 =>
      let b1 := nat_of_ascii c1 in
      if white_space_1 b1 then trim_left s1
      else
        match s1 with
        | String c2 s2 =>
            let b2 := nat_of_ascii c2 in
            if white_space_2 b1 b2 then trim_left s2
            else
              match s2 with
              | String c3 s3 =>
                  if white_space_3 b1 b2 (nat_of_ascii c3) then trim_left s3
                  else s
              | EmptyString => s
              end
        | EmptyString => s
        end
  | EmptyString => EmptyString
  end.

(** The sign the string starts with, if any, taken off. *)
Definition strip_sign (s : string) : bool * string :=
  match s with
  | String "-" s' => (true, s')
  | String "+" s' => (false, s')
  | _ => (false, s)
  end.

(** The radix, with the prefix 0x or 0X taken off when it is there. *)
Definition strip_prefix (s : string) : Z * string :=
  match s with
  | String "0" (String "x" s') | String "0" (String "X" s') => (16%Z, s')
  | _ => (10%Z, s)
  end.

Definition digit_value (c : ascii) : option Z :=
  let n := Z.of_nat (nat_of_ascii c) in
  if ((48 <=? n) && (n <=? 57))%Z then Some (n - 48)%Z
  else if ((97 <=? n) && (n <=? 122))%Z then Some (n - 87)%Z
  else if ((65 <=? n) && (n <=? 90))%Z then Some (n - 55)%Z
  else None.

(** The value of the longest prefix of [s] made of digits of [radix];
    [acc] is [None] until a first digit has been read. *)
Fixpoint parse_digits (radix : Z) (s : string) (acc : option Z) : option Z :=
  match s with
  | String c s' =>
      match digit_value c with
      | Some d =>
          if (d <? radix)%Z
          then parse_digits radix s' (Some (radix * default 0%Z acc + d)%Z)
          else acc
      | None => acc
      end
  | EmptyString => acc
  end.

(** The Number value for the mathematical integer [z] (round to nearest,
    ties to even), with the sign kept on a zero. *)
Definition number_of_int (negative : bool) (z : Z) : Number :=
  if (z =? 0)%Z then S754_zero negative
  else binary_normalize 53 1024 (if negative then - z else z)%Z 0 false.

Definition parseInt (s : string) : Number :=
  let s := trim_left s in
  let '(negative, s) := strip_sign s in
  let '(radix, s) := strip_prefix s in
  match parse_digits radix s None with
  | None => NaN
  | Some z => number_of_int negative z
  end.

(** [parseInt(v)] on a value. Only string arguments are modelled: they are
    the only ones [sanitize] passes, its call being guarded by
    [typeof val == 'string']. For any other value the model answers [NaN],
    which is ECMAScript's answer for undefined, null, booleans and plain
    objects (but not for numbers or arrays, which are never passed). *)
Definition parseInt_value (v : Value) : Number :=
  match v with
  | VString s => parseInt s
  | _ => NaN
  end.

End JS.
Export JS.

(** ** The collection and its schema *)

(** Modelled from the spec: the type names a property may declare (section 3,
    PropertySchema). The source has no declaration for them; [prop.type] is
    compared with [typeof val] as a string, see [type_name]. *)
Inductive PropType := TString | TNumber | TBoolean | TDate | TObject | TArray.

Definition type_name (t : PropType) : string :=
  match t with
  | TString => "string"
  | TNumber => "number"
  | TBoolean => "boolean"
  | TDate => "date"
  | TObject => "object"
  | TArray => "array"
  end.

(** One entry of [settings.properties]: [{type: ..., required: ...}];
    [type] is [None] when the entry has no [type] field. *)
Record Property := { type : option PropType; required : bool }.

Abbreviation Schema := (gmap string Property).

(** [expected == actual] where [expected] is [prop.type] and [actual] a
    [typeof] string: [undefined == 'string'] is false. *)
Definition type_eq (expected : option PropType) (actual : string) : bool :=
  match expected with
  | Some t => String.eqb (type_name t) actual
  | None => false
  end.

(** [prop.type || 'string'] *)
Definition type_or_string (expected : option PropType) : string :=
  match expected with
  | Some t => type_name t
  | None => "string"
  end.

(** ** validate and sanitize *)

Section SchemaEngine.

(** The [validation] module ([require('validation')]) is not part of the
    repository; its two predicates are parameters of the embedding. *)
Variable validation_exists : Value → bool.
Variable validation_isType : Value → string → bool.

(** The body of the [keys.forEach] callback of [validate]. *)
Definition validate_key (props : Schema) (body : Obj) (errors : Obj) (key : string) : Obj :=
  match props !! key with
  | None => errors
  | Some prop =>
      let val := get body key in
      let type := type_or_string (type prop) in
      if validation_exists val then
        if negb (validation_isType val type)
        then <[key := VString ("must be a " ++ type)]> errors
        else errors
      else if required prop
        then <[key := VString "is required"]> errors
        else errors
  end.

(** [Collection.prototype.validate]. [this.properties] is [None] when the
    settings had no [properties]; [validate] then stores [{}] in it. The
    result is the new [this.properties] and the returned error map
    ([None] for [undefined]). *)
Definition validate (properties : option Schema) (body : Obj) : Schema * option Obj :=
  let properties := default ∅ properties in
  let keys := Object_keys properties in
  let props := properties in
  let errors := foldl (validate_key props body) ∅ keys in
  (properties, if decide (errors = ∅) then None else Some errors).

(** The body of the [keys.forEach] callback of [sanitize]. *)
Definition sanitize_key (props : Schema) (body : Obj) (sanitized : Obj) (key : string) : Obj :=
  match props !! key with
  | None => sanitized
  | Some prop =>
      let expected := type prop in
      let val := get body key in
      let actual := typeof val in
      if type_eq expected actual then <[key := val]> sanitized
      else if type_eq expected "number" && String.eqb actual "string"
        then <[key := VNumber (parseInt_value val)]> sanitized
        else sanitized
  end.

(** [Collection.prototype.sanitize], for a collection whose
    [this.properties] is the object [props]. (With [this.properties]
    undefined, [Object.keys(props)] throws before anything is built.) *)
Definition sanitize (props : Schema) (body : Obj) : Obj :=
  let keys := Object_keys props in
  foldl (sanitize_key props body) ∅ keys.

End SchemaEngine.

(** ** Objects that the listener engine creates and mutates *)

(** [new Error(msg)], with the constructor's name kept as a field. *)
Definition new_Error (name msg : string) : Obj :=
  <["message" := VString msg]> {["name" := VString name]}.

Definition is_digit (c : ascii) : bool :=
  let n := nat_of_ascii c in (48 <=? n)%nat && (n <=? 57)%nat.

Fixpoint all_digits (s : string) : bool :=
  match s with
  | String c s' => is_digit c && all_digits s'
  | EmptyString => true
  end.

(** The index a property name denotes on an array: the canonical decimal
    spelling of a natural number ("0", "7", "12"; not "07", not "+7"). *)
Definition array_index (property : string) : option nat :=
  match property with
  | EmptyString => None
  | String "0" EmptyString => Some 0%nat
  | String "0" _ => None
  | _ =>
      if all_digits property
      then Z.to_nat <$> parse_digits 10 property None
      else None
  end.

(** [delete v[property]]: [inl] is the TypeError raised on [null] and
    [undefined]. On an array an index in range leaves a hole; any other
    name is not an own property (own properties of arrays other than
    their elements are not modelled, [length] cannot be deleted). On the
    remaining values there is nothing to delete. *)
Definition delete_property (v : Value) (property : string) : Obj + Value :=
  match v with
  | VUndefined | VNull =>
      inl (new_Error "TypeError" "Cannot convert undefined or null to object")
  | VObject o => inr (VObject (delete property o))
  | VArray elems =>
      match array_index property with
      | Some i => inr (VArray (<[i := None]> elems))
      | None => inr v
      end
  | _ => inr v
  end.

(** ** Sessions, listeners and settings *)

Record Session := { isRoot : bool }.

(** The logic of a listener ([settings.onGet], ...), as the sequence of
    calls it makes on the names the engine puts in its scope. [ReadThis]
    hands the listener its [this], so that what it does next may depend on
    the record. Calls to other resources ([asyncFunctions]) and writes
    through [this] are not part of the model. *)
Inductive Hook : Type :=
| Done
| CallError (key : string) (val : Value) (next : Hook)
| CallCancel (msg : string) (status : Value) (next : Hook)
| CallHide (property : string) (next : Hook)
| CallProtect (property : string) (next : Hook)
| ReadThis (next : Value → Hook).

Inductive Method := Get | Post | Put | Delete | Validate.

Record Settings := {
  onGet : option Hook;
  onPost : option Hook;
  onPut : option Hook;
  onDelete : option Hook;
  onValidate : option Hook
}.

(** [settings['on' + method]] *)
Definition listener_of (settings : Settings) (method : Method) : option Hook :=
  match method with
  | Get => onGet settings
  | Post => onPost settings
  | Put => onPut settings
  | Delete => onDelete settings
  | Validate => onValidate settings
  end.

Record Collection := {
  settings : Settings;
  properties : option Schema
}.

(** ** The listener engine *)

(** The variables a running listener can reach. *)
Record State := {
  errors : option Obj;  (** [var errors], [None] while undefined *)
  data : Value;         (** [var data = item], which is also [options.this] *)
  element : Value       (** in the Get wrapper: the [item] of the [forEach] callback *)
}.

Definition set_errors (st : State) (e : Obj) : State :=
  {| errors := Some e; data := data st; element := element st |}.
Definition set_data (st : State) (d : Value) : State :=
  {| errors := errors st; data := d; element := element st |}.
Definition set_element (st : State) (x : Value) : State :=
  {| errors := errors st; data := data st; element := x |}.

(** A call either throws ([inl]) or returns with the variables updated. *)
Definition Capability := State → Obj + State.

(** What the names [error], [cancel], [hide], [protect] and [this] resolve
    to where the listener's source is evaluated. *)
Record Scope := {
  error : string → Value → Capability;
  cancel : string → Value → Capability;
  hide : string → Capability;
  protect : string → Capability;
  this_value : State → Value
}.

(** [delete data[property]] *)
Definition delete_data (property : string) : Capability := λ st,
  match delete_property (data st) property with
  | inl e => inl e
  | inr d => inr (set_data st d)
  end.

(** [delete item[property]], [item] being the [forEach] element. *)
Definition delete_element (property : string) : Capability := λ st,
  match delete_property (element st) property with
  | inl e => inl e
  | inr x => inr (set_element st x)
  end.

(** [options.context] of [execListener]. *)
Definition context (session : Session) : Scope := {|
  error := λ key val st,
    let errors := default ∅ (errors st) in
    inr (set_errors st (<[key := or_else val (VBool true)]> errors));
  cancel := λ msg status st,
    if negb (isRoot session)
    then inl (<["status" := status]> (new_Error "Error" msg))
    else inr st;
  hide := λ property st,
    if negb (isRoot session) then delete_data property st else inr st;
  protect := λ property st,
    if negb (isRoot session) then delete_data property st else inr st;
  this_value := data
|}.

(** The scope inside the Get wrapper: [function hide(property)] declared in
    the [forEach] callback shadows the context's [hide], and the source
    runs under [.call(item)]. *)
Definition get_wrapper (outer : Scope) : Scope := {|
  error := error outer;
  cancel := cancel outer;
  hide := delete_element;
  protect := protect outer;
  this_value := element
|}.

(** Running a listener's logic in a scope: the thrown error, if any, and
    the variables as the run leaves them. *)
Fixpoint run (scope : Scope) (h : Hook) (st : State) : option Obj * State :=
  match h with
  | Done => (None, st)
  | CallError key val next =>
      match error scope key val st with
      | inl e => (Some e, st)
      | inr st' => run scope next st'
      end
  | CallCancel msg status next =>
      match cancel scope msg status st with
      | inl e => (Some e, st)
      | inr st' => run scope next st'
      end
  | CallHide property next =>
      match hide scope property st with
      | inl e => (Some e, st)
      | inr st' => run scope next st'
      end
  | CallProtect property next =>
      match protect scope property st with
      | inl e => (Some e, st)
      | inr st' => run scope next st'
      end
  | ReadThis next => run scope (next (this_value scope st)) st
  end.

(** The element at index [k] is an object shared with the array: what the
    callback did to it shows in the array as long as the slot still holds
    it. *)
Definition write_back (k : nat) (st : State) : State :=
  match data st with
  | VArray elems =>
      match elems !! k with
      | Some (Some _) => set_data st (VArray (<[k := Some (element st)]> elems))
      | _ => st
      end
  | _ => st
  end.

(** One turn of [this.forEach(function (item) { ... })]: holes are skipped. *)
Definition forEach_step (scope : Scope) (h : Hook) (st : State) (k : nat)
  : option Obj * State :=
  match data st with
  | VArray elems =>
      match elems !! k with
      | Some (Some item) =>
          let '(thrown, st') := run scope h (set_element st item) in
          (thrown, write_back k st')
      | _ => (None, st)
      end
  | _ => (None, st)
  end.

Fixpoint forEach_from (scope : Scope) (h : Hook) (ks : list nat) (st : State)
  : option Obj * State :=
  match ks with
  | [] => (None, st)
  | k :: ks' =>
      match forEach_step scope h st k with
      | (Some e, st') => (Some e, st')
      | (None, st') => forEach_from scope h ks' st'
      end
  end.

(** The listener that [execListener] builds for Get: the source is pasted
    into the callback of a [forEach] over [this]. *)
Definition run_get (outer : Scope) (h : Hook) (st : State) : option Obj * State :=
  match data st with
  | VArray elems => forEach_from (get_wrapper outer) h (seq 0 (length elems)) st
  | _ => (Some (new_Error "TypeError" "this.forEach is not a function"), st)
  end.

(** [asyncEval(listener, options, callback)]. The [async-eval] module is
    external; following section 1 of the specification it runs the script
    against the context and calls back once, with the error the script
    threw or with nothing. *)
Definition asyncEval {A} (script : State → option Obj * State) (st : State)
    (callback : Value → State → A) : A :=
  let '(thrown, st') := script st in
  callback (match thrown with Some e => VObject e | None => VUndefined end) st'.

(** ** Operations in continuation-passing style *)

(** What an operation does: calls to the store, each with the callback it
    hands over, and at the leaves the call of the operation's own callback
    ([Reply err result] for [fn(err, result)]). *)
Inductive Action : Type :=
| StoreFind (query : Obj) (cb : Value → Value → Action)
| StoreInsert (item : Obj) (cb : Value → Value → Action)
| StoreUpdate (query item : Obj) (cb : Value → Value → Action)
| StoreRemove (query : Obj) (cb : Value → Value → Action)
| Reply (err result : Value).

Definition Callback := Value → Value → Action.

(** [Collection.prototype.execListener]. A method without a configured
    listener runs the empty logic; for Get the wrapper is built around it
    all the same. *)
Definition execListener (this : Collection) (method : Method) (session : Session)
    (query : Obj) (item : Value) (fn : Callback) : Action :=
  let listener := default Done (listener_of (settings this) method) in
  let st := {| errors := None; data := item; element := VUndefined |} in
  let script :=
    match method with
    | Get => run_get (context session) listener
    | _ => run (context session) listener
    end in
  asyncEval script st (λ err st',
    fn err (match errors st' with Some e => VObject e | None => data st' end)).

(** [Collection.prototype.find] *)
Definition find (this : Collection) (session : Session) (query : Obj) (fn : Callback)
  : Action :=
  StoreFind query (λ err result,
    if truthy err then fn err VUndefined
    else execListener this Get session query result fn).

(** [query && query._id], [query] being [None] for null or undefined. *)
Definition has_id (query : option Obj) : bool :=
  match query with
  | Some q => truthy (get q "_id")
  | None => false
  end.

Definition remove_error : Value :=
  VString "You must include a query with an _id when deleting an object from a collection.".

(** [Collection.prototype.remove] *)
Definition remove (this : Collection) (session : Session) (query : option Obj)
    (fn : Callback) : Action :=
  if negb (has_id query) then fn remove_error VUndefined
  else
    let query := default ∅ query in
    StoreFind query (λ err _,
      if truthy err then fn err VUndefined
      else execListener this Delete session query VNull (λ err _,
        if truthy err then fn err VUndefined
        else StoreRemove query fn)).

Definition save_error : Value :=
  VString "You must include an object when saving or updating.".

(** [Collection.prototype.save]. [item] and [query] are [None] for null or
    undefined; a function in the place of [query] is the callback
    ([inr]). The source updates [item] and [query] in place; the model
    passes the updated objects on. *)
Definition save (this : Collection) (session : Session) (item : option Obj)
    (query : option Obj + Callback) (fn : Callback) : Action :=
  let '(fn, query) :=
    match query with
    | inr callback => (callback, Some ∅)
    | inl query => (fn, query)
    end in
  let query := default ∅ query in
  match item with
  | None => fn save_error VUndefined
  | Some item =>
      let '(query, item) :=
        if truthy (get item "_id")
        then (<["_id" := get item "_id"]> query, delete "_id" item)
        else (query, item) in
      if truthy (get query "_id")
      then StoreUpdate query item fn
      else StoreInsert item fn
  end.

(** ** Running an operation against a store *)

(** The store is an external collaborator: here any state machine that
    answers each call with the arguments it gives the callback, or with
    [None] when it never calls back. *)
Record Store (S : Type) := {
  store_find : S → Obj → S * option (Value * Value);
  store_insert : S → Obj → S * option (Value * Value);
  store_update : S → Obj → Obj → S * option (Value * Value);
  store_remove : S → Obj → S * option (Value * Value)
}.
Arguments store_find {S}.
Arguments store_insert {S}.
Arguments store_update {S}.
Arguments store_remove {S}.

Inductive StoreCall :=
| CalledFind (query : Obj)
| CalledInsert (item : Obj)
| CalledUpdate (query item : Obj)
| CalledRemove (query : Obj).

(** The store calls an operation issues, in order, and the arguments its
    own callback finally receives. *)
Fixpoint perform {S} (store : Store S) (a : Action) (s : S)
  : list StoreCall * option (Value * Value) :=
  let continue call answer cb :=
    match answer with
    | (s', Some (err, result)) =>
        let '(calls, reply) := perform store (cb err result) s' in
        (call :: calls, reply)
    | (_, None) => ([call], None)
    end in
  match a with
  | Reply err result => ([], Some (err, result))
  | StoreFind query cb =>
      continue (CalledFind query) (store_find store s query) cb
  | StoreInsert item cb =>
      continue (CalledInsert item) (store_insert store s item) cb
  | StoreUpdate query item cb =>
      continue (CalledUpdate query item) (store_update store s query item) cb
  | StoreRemove query cb =>
      continue (CalledRemove query) (store_remove store s query) cb
  end.

(** ** Notions the properties are stated with *)

(** One turn of a [forEach] over keys whose callback writes at most its own
    key: [write key] is the value written under [key], if any. *)
Definition write_step (write : string → option Value) (acc : Obj) (key : string)
  : Obj :=
  match write key with
  | Some v => <[key := v]> acc
  | None => acc
  end.

(** What [sanitize] writes for one declared property. *)
Definition sanitized_value (prop : Property) (val : Value) : option Value :=
  if type_eq (type prop) (typeof val) then Some val
  else if type_eq (type prop) "number" && String.eqb (typeof val) "string"
    then Some (VNumber (parseInt_value val))
    else None.

(** What [validate] reports for one declared property. *)
Definition validation_error (validation_exists : Value → bool)
    (validation_isType : Value → string → bool)
    (prop : Property) (val : Value) : option Value :=
  let type := type_or_string (type prop) in
  if validation_exists val then
    if negb (validation_isType val type)
    then Some (VString ("must be a " ++ type))
    else None
  else if required prop then Some (VString "is required") else None.

(** The error map [validate] returns, [{}] standing for [undefined]. *)
Definition validate_errors (validation_exists : Value → bool)
    (validation_isType : Value → string → bool)
    (properties : option Schema) (body : Obj) : Obj :=
  default ∅ (validate validation_exists validation_isType properties body).2.

(** The outcome of the Delete listener of [this] for [session]: it runs
    with [null] as its item. *)
Definition delete_listener (this : Collection) (session : Session)
  : option Obj * State :=
  run (context session) (default Done (onDelete (settings this)))
    {| errors := None; data := VNull; element := VUndefined |}.

(** The query and the item after [save] has handled [_id]. *)
Definition resolve_id (query item : Obj) : Obj * Obj :=
  if truthy (get item "_id")
  then (<["_id" := get item "_id"]> query, delete "_id" item)
  else (query, item).

(** The logic left when every call to [cancel], [hide] and [protect] is
    taken out. *)
Fixpoint without_guards (h : Hook) : Hook :=
  match h with
  | Done => Done
  | CallError key val next => CallError key val (without_guards next)
  | CallCancel _ _ next => without_guards next
  | CallHide _ next => without_guards next
  | CallProtect _ next => without_guards next
  | ReadThis next => ReadThis (λ v, without_guards (next v))
  end.

(** Every [protect] call of the logic is made for a root session (so it
    does nothing), in particular when there is none. *)
Fixpoint protect_inert (session : Session) (h : Hook) : Prop :=
  match h with
  | Done => True
  | CallError _ _ next => protect_inert session next
  | CallCancel _ _ next => protect_inert session next
  | CallHide _ next => protect_inert session next
  | CallProtect _ next => isRoot session = true ∧ protect_inert session next
  | ReadThis next => ∀ v, protect_inert session (next v)
  end.

(** The logic never calls [protect]. *)
Fixpoint no_protect (h : Hook) : Prop :=
  match h with
  | Done => True
  | CallError _ _ next => no_protect next
  | CallCancel _ _ next => no_protect next
  | CallHide _ next => no_protect next
  | CallProtect _ _ => False
  | ReadThis next => ∀ v, no_protect (next v)
  end.

(** The Get wrapper applied to one record, starting from the errors
    collected so far: the wrapper's [this] and [hide] see the record
    only. *)
Definition on_record (session : Session) (h : Hook) (collected : option Obj)
    (record : Value) : option Obj * State :=
  run (get_wrapper (context session)) h
    {| errors := collected; data := VUndefined; element := record |}.

(** The wrapper applied to the records of a list, first to last, stopping
    at the first one that throws: the thrown error, the errors collected
    and the records as the applications leave them. *)
Fixpoint per_record (session : Session) (h : Hook) (collected : option Obj)
    (records : list Value) : option Obj * option Obj * list Value :=
  match records with
  | [] => (None, collected, [])
  | record :: rest =>
      match on_record session h collected record with
      | (Some e, st) => (Some e, errors st, element st :: rest)
      | (None, st) =>
          let '(thrown, errors', rest') :=
            per_record session h (errors st) rest in
          (thrown, errors', element st :: rest')
      end
  end.

(** ** Concrete collections, records and stores *)

Module Example.

Definition root : Session := {| isRoot := true |}.
Definition guest : Session := {| isRoot := false |}.

Definition no_listeners : Settings :=
  {| onGet := None; onPost := None; onPut := None; onDelete := None;
     onValidate := None |}.

(** [{title: {type: 'string', required: true}}] *)
Definition titles : Schema :=
  {["title" := {| type := Some TString; required := true |}]}.

(** [onPost: 'error("title", "bad")'] *)
Definition post_rejects : Collection :=
  {| settings :=
       {| onGet := None;
          onPost := Some (CallError "title" (VString "bad") Done);
          onPut := None; onDelete := None; onValidate := None |};
     properties := Some titles |}.

(** [onPost: 'cancel("no")'] *)
Definition post_cancels : Collection :=
  {| settings :=
       {| onGet := None;
          onPost := Some (CallCancel "no" VUndefined Done);
          onPut := None; onDelete := None; onValidate := None |};
     properties := Some titles |}.

(** [onGet: 'hide("secret")'], and the same logic on Put. *)
Definition hides_secret : Collection :=
  {| settings :=
       {| onGet := Some (CallHide "secret" Done);
          onPost := None;
          onPut := Some (CallHide "secret" Done);
          onDelete := None; onValidate := None |};
     properties := None |}.

(** [this.id === expected] *)
Definition id_is (this : Value) (expected : string) : bool :=
  match this with
  | VObject o =>
      match o !! "id" with
      | Some (VString s) => String.eqb s expected
      | _ => false
      end
  | _ => false
  end.

(** [onGet: 'if (this.id === "2") error("x", "bad")'] *)
Definition flags_second : Collection :=
  {| settings :=
       {| onGet := Some (ReadThis (λ this,
            if id_is this "2" then CallError "x" (VString "bad") Done else Done));
          onPost := None; onPut := None; onDelete := None; onValidate := None |};
     properties := None |}.

Definition plain : Collection :=
  {| settings := no_listeners; properties := Some titles |}.

(** [{id: ..., secret: ...}] *)
Definition record (id secret : string) : Obj :=
  <["id" := VString id]> {["secret" := VString secret]}.

Definition three_records : list Value :=
  [VObject (record "1" "a"); VObject (record "2" "b"); VObject (record "3" "c")].

(** [{title: "x", extra: "y"}] *)
Definition new_item : Obj :=
  <["title" := VString "x"]> {["extra" := VString "y"]}.

(** [{_id: "", title: "x"}] *)
Definition blank_id_item : Obj :=
  <["_id" := VString ""]> {["title" := VString "x"]}.

(** [{_id: ""}] and [{_id: "42"}] *)
Definition blank_id_query : Obj := {["_id" := VString ""]}.
Definition query_42 : Obj := {["_id" := VString "42"]}.

(** A store that answers every call with success and no result. *)
Definition ok_store : Store unit :=
  {| store_find := λ s _, (s, Some (VUndefined, VUndefined));
     store_insert := λ s _, (s, Some (VUndefined, VUndefined));
     store_update := λ s _ _, (s, Some (VUndefined, VUndefined));
     store_remove := λ s _, (s, Some (VUndefined, VUndefined)) |}.

(** Modelled from the spec: the two predicates of the [validation] module,
    which is not in the repository, after section 4.1 (a supplied value
    must satisfy the declared type, by a fixed table). *)
Definition spec_exists (v : Value) : bool :=
  match v with
  | VUndefined | VNull => false
  | _ => true
  end.

Definition spec_isType (v : Value) (type : string) : bool :=
  match v with
  | VString _ => String.eqb type "string"
  | VNumber _ => String.eqb type "number"
  | VBool _ => String.eqb type "boolean"
  | VDate _ => String.eqb type "date"
  | VObject _ => String.eqb type "object"
  | VArray _ => String.eqb type "array"
  | VUndefined | VNull => false
  end.

(** [{note: {}}]: a declared property without a type. *)
Definition untyped : Schema := {["note" := {| type := None; required := false |}]}.

(** [{note: "hello"}] *)
Definition note_body : Obj := {["note" := VString "hello"]}.

(** [{age: {type: 'number'}}] with [{age: "42", name: "n"}] and [{age: "abc"}] *)
Definition ages : Schema := {["age" := {| type := Some TNumber; required := false |}]}.
Definition age_body : Obj := <["age" := VString "42"]> {["name" := VString "n"]}.

End Example.

(** ** The resources handed to the script runner: clean *)

Module Resources.

(** What a resource holds under a name: a plain value, one of its own
    functions (told apart by a name), or a function built by [clean],
    [function () { prev[key].apply(prev, arguments) }], which keeps the
    resource [prev] (its two maps) and the [key]. *)
Inductive Member : Type :=
| Data (v : Value)
| Func (name : string)
| Forwarder (prev_own prev_proto : gmap string Member) (key : string).

(** A resource object: its own properties and the enumerable properties of
    its prototype ([prev.__proto__]). An object literal has none of the
    latter. *)
Record Resource := {
  own : gmap string Member;
  proto : gmap string Member
}.

(** [prev[key]]: own properties first, then the prototype. *)
Definition member (prev : Resource) (key : string) : option Member :=
  match own prev !! key with
  | Some m => Some m
  | None => proto prev !! key
  end.

(** [typeof m === 'function'], [None] being [undefined]. *)
Definition is_function (m : option Member) : bool :=
  match m with
  | Some (Func _) | Some (Forwarder _ _ _) => true
  | _ => false
  end.

(** The body of the inner [forEach], over [Object.keys(prev.__proto__)]. *)
Definition clean_key (prev : Resource) (cleaned : gmap string Member)
    (key : string) : gmap string Member :=
  if is_function (member prev key)
  then <[key := Forwarder (own prev) (proto prev) key]> cleaned
  else cleaned.

(** The object [cleaned] that replaces [prev]. *)
Definition cleaned_of (prev : Resource) : Resource :=
  {| own := foldl (clean_key prev) ∅ (Object_keys (proto prev));
     proto := ∅ |}.

(** The body of the outer [forEach]: [resources[resource] = cleaned]. *)
Definition clean_resource (resources : gmap string Resource) (resource : string)
  : gmap string Resource :=
  match resources !! resource with
  | Some prev => <[resource := cleaned_of prev]> resources
  | None => resources
  end.

(** [clean(resources)]: the object is updated in place and returned;
    nothing is returned for a falsy argument. *)
Definition clean (resources : option (gmap string Resource))
  : option (gmap string Resource) :=
  match resources with
  | Some resources => Some (foldl clean_resource resources (Object_keys resources))
  | None => None
  end.

(** [{}] *)
Definition empty_object : Resource := {| own := ∅; proto := ∅ |}.

End Resources.

(** ** The transport handler: handle *)

Module Transport.

(** The request as [handle] reads it. [req.query] is the parsed query
    string, always an object; [req.body] is [None] when there is none. *)
Record Request := {
  method : string;
  query : Obj;
  body : option Obj
}.

Inductive HeaderValue :=
| HeaderText (s : string)
| HeaderLength (n : nat).

(** The calls made on [res]. *)
Inductive ResCall :=
| ResError (err : Value)
| ResSetHeader (name : string) (value : HeaderValue)
| ResEnd (resBody : option string).

(** The session [{}] that [handle] passes on: its [isRoot] is undefined. *)
Definition no_session : Session := {| isRoot := false |}.

Section Handler.

(** [JSON.stringify], which returns the text or throws ([inl]). *)
Variable JSON_stringify : Value → Obj + string.

(** The local callback [fn(err, result)] of [handle]; [resBody.length] is
    the length of the string. *)
Definition fn (err result : Value) : list ResCall :=
  if truthy err then [ResError err]
  else if truthy result then
    match JSON_stringify result with
    | inl e => [ResError (VObject e)]
    | inr resBody =>
        [ResSetHeader "content-type" (HeaderText "application/json");
         ResSetHeader "content-length" (HeaderLength (String.length resBody));
         ResEnd (Some resBody)]
    end
  else [ResEnd None].

(** [Collection.prototype.handle]: the operation the [switch] starts, with
    [Reply err result] standing for the call [fn(err, result)]; [None]
    when no [case] matches [req.method]. *)
Definition handle (this : Collection) (req : Request) : option Action :=
  if String.eqb (method req) "GET"
  then Some (find this no_session (query req) Reply)
  else if String.eqb (method req) "POST" || String.eqb (method req) "PUT"
  then Some (save this no_session (body req) (inl (Some (query req))) Reply)
  else if String.eqb (method req) "DELETE"
  then Some (remove this no_session (Some (query req)) Reply)
  else None.

(** A request served against a store: the store calls issued and the
    calls made on [res]. *)
Definition serve {S} (store : Store S) (this : Collection) (req : Request) (s : S)
  : list StoreCall * list ResCall :=
  match handle this req with
  | None => ([], [])
  | Some action =>
      let '(calls, reply) := perform store action s in
      (calls,
       match reply with
       | Some (err, result) => fn err result
       | None => []
       end)
  end.

End Handler.

End Transport.

(** ** More notions for the properties *)

(** The store answers every call. *)
Definition responsive {S} (store : Store S) : Prop :=
  (∀ s q, is_Some (store_find store s q).2) ∧
  (∀ s i, is_Some (store_insert store s i).2) ∧
  (∀ s q i, is_Some (store_update store s q i).2) ∧
  (∀ s q, is_Some (store_remove store s q).2).

(** The logic makes no call to [cancel], [hide] or [protect]. *)
Fixpoint no_guards (h : Hook) : Prop :=
  match h with
  | Done => True
  | CallError _ _ next => no_guards next
  | CallCancel _ _ _ | CallHide _ _ | CallProtect _ _ => False
  | ReadThis next => ∀ v, no_guards (next v)
  end.

(** The logic with [hide] and [protect] exchanged. *)
Fixpoint swap_hide_protect (h : Hook) : Hook :=
  match h with
  | Done => Done
  | CallError key val next => CallError key val (swap_hide_protect next)
  | CallCancel msg status next => CallCancel msg status (swap_hide_protect next)
  | CallHide property next => CallProtect property (swap_hide_protect next)
  | CallProtect property next => CallHide property (swap_hide_protect next)
  | ReadThis next => ReadThis (λ v, swap_hide_protect (next v))
  end.

(** The logic [error(k1, v1); ...; error(kn, vn)]. *)
Fixpoint error_calls (calls : list (string * Value)) : Hook :=
  match calls with
  | [] => Done
  | (key, val) :: rest => CallError key val (error_calls rest)
  end.

(** The value the last [error(key, _)] of [calls] records, if there is
    one. *)
Fixpoint last_error (key : string) (calls : list (string * Value)) : option Value :=
  match calls with
  | [] => None
  | (k, v) :: rest =>
      match last_error key rest with
      | Some v' => Some v'
      | None => if String.eqb k key then Some (or_else v (VBool true)) else None
      end
  end.

(** A collection whose settings hold the one listener [h], for [method]. *)
Definition only_listener (method : Method) (h : Hook) : Collection :=
  {| settings :=
       {| onGet := match method with Get => Some h | _ => None end;
          onPost := match method with Post => Some h | _ => None end;
          onPut := match method with Put => Some h | _ => None end;
          onDelete := match method with Delete => Some h | _ => None end;
          onValidate := match method with Validate => Some h | _ => None end |};
     properties := None |}.

(** A store whose [find] succeeds with [result] (and [null] for the
    error); the other calls succeed with no result. *)
Definition finds (result : Value) : Store unit :=
  {| store_find := λ s _, (s, Some (VNull, result));
     store_insert := λ s _, (s, Some (VUndefined, VUndefined));
     store_update := λ s _ _, (s, Some (VUndefined, VUndefined));
     store_remove := λ s _, (s, Some (VUndefined, VUndefined)) |}.

(** [v.length] when [v] is an array. *)
Definition array_length (v : Value) : option nat :=
  match v with
  | VArray elems => Some (length elems)
  | _ => None
  end.

(** The state a listener starts from. *)
Definition initial (item : Value) : State :=
  {| errors := None; data := item; element := VUndefined |}.

(** ** Notions for the properties of parseInt *)

(** [z] with its sign. *)
Definition signed (negative : bool) (z : Z) : Z :=
  if negative then (- z)%Z else z.

(** The integer a number is, when it is finite and has no fractional
    part. *)
Definition integer_of (n : Number) : option Z :=
  match n with
  | S754_zero _ => Some 0%Z
  | S754_finite negative m e =>
      if (0 <=? e)%Z then Some (signed negative (Z.pos m * 2 ^ e))%Z
      else if (Z.pos m mod 2 ^ (- e) =? 0)%Z
        then Some (signed negative (Z.pos m / 2 ^ (- e)))%Z
        else None
  | _ => None
  end.



(** The string of the given bytes. *)
Definition bytes (codes : list nat) : string :=
  foldr (λ b s, String (ascii_of_nat b) s) "" codes.


(** The strings of the given pieces, one after the other. *)
Definition joined (pieces : list string) : string :=
  foldr String.append "" pieces.














(** * Properties *)

#[local] Open Scope list_scope.

(** ** Schema engine *)

Lemma foldl_write_lookup (write : string → option Value) (keys : list string)
    (acc : Obj) (key : string) :
  foldl (write_step write) acc keys !! key =
    if decide (key ∈ keys)
    then match write key with Some v => Some v | None => acc !! key end
    else acc !! key.
Proof.
  revert acc. induction keys as [|k keys IH]; intros acc.
  - destruct (decide (key ∈ [])) as [Hin|]; [|done]. by apply elem_of_nil in Hin.
  - cbn [foldl]. rewrite IH. unfold write_step.
    destruct (decide (key = k)) as [->|Hne].
    + destruct (decide (k ∈ k :: keys)) as [_|Hout];
        [|exfalso; apply Hout, list_elem_of_here].
      destruct (write k) as [v|] eqn:Hw.
      * destruct (decide (k ∈ keys)); [done|]. by rewrite lookup_insert_eq.
      * by destruct (decide (k ∈ keys)).
    + assert (Hacc : match write k with Some v => <[k:=v]> acc | None => acc end
                     !! key = acc !! key).
      { destruct (write k); [by rewrite lookup_insert_ne|done]. }
      rewrite Hacc.
      destruct (decide (key ∈ keys)) as [Hin|Hout],
        (decide (key ∈ k :: keys)) as [Hin'|Hout']; try done.
      * exfalso. apply Hout'. by apply list_elem_of_further.
      * exfalso. apply elem_of_cons in Hin' as [?|?]; done.
Qed.

Lemma foldl_pointwise {A B} (f g : A → B → A) (a : A) (l : list B) :
  (∀ x y, f x y = g x y) → foldl f a l = foldl g a l.
Proof.
  intros Hfg. revert a. induction l as [|y l IH]; intros a; simpl; [done|].
  by rewrite Hfg, IH.
Qed.

Lemma elem_of_Object_keys {A} (o : gmap string A) (key : string) :
  key ∈ Object_keys o ↔ is_Some (o !! key).
Proof.
  unfold Object_keys. rewrite list_elem_of_fmap. split.
  - intros [[k x] [-> Hin]]. apply elem_of_map_to_list in Hin. by exists x.
  - intros [x Hx]. exists (key, x). split; [done|]. by apply elem_of_map_to_list.
Qed.

Lemma sanitize_lookup (props : Schema) (body : Obj) (key : string) :
  sanitize props body !! key =
    props !! key ≫= λ prop, sanitized_value prop (get body key).
Proof.
  unfold sanitize.
  rewrite (foldl_pointwise _ (write_step (λ k,
    props !! k ≫= λ prop, sanitized_value prop (get body k)))).
  - rewrite foldl_write_lookup, lookup_empty.
    destruct (decide (key ∈ Object_keys props)) as [Hin|Hout].
    + by destruct (props !! key ≫= _).
    + rewrite elem_of_Object_keys, <-eq_None_not_Some in Hout. by rewrite Hout.
  - intros acc k. unfold sanitize_key, write_step, sanitized_value.
    destruct (props !! k) as [prop|]; simpl; [|done].
    by repeat case_match.
Qed.


Lemma type_name_not_undefined (expected : option PropType) :
  type_eq expected "undefined" = false.
Proof. by destruct expected as [[]|]. Qed.

Lemma get_lookup (o : Obj) (key : string) (v : Value) :
  o !! key = Some v → get o key = v.
Proof. unfold get. by intros ->. Qed.

(** *** Numbers of integers *)







(** *** Rounding an integer of more than 53 bits *)










(** *** Reading a numeral *)





(** *** White space, sign and prefix *)












(** *** What parseInt returns *)












Lemma sanitized_value_fixed (prop : Property) (val : Value) :
  sanitized_value prop (default VUndefined (sanitized_value prop val)) =
  sanitized_value prop val.
Proof.
  destruct (sanitized_value prop val) as [v|] eqn:Hval; simpl;
    unfold sanitized_value in *.
  - destruct (type_eq (type prop) (typeof val)) eqn:Hsame.
    + injection Hval as <-. by rewrite Hsame.
    + destruct (type_eq (type prop) "number") eqn:Hnum; simpl in Hval; [|done].
      destruct (String.eqb (typeof val) "string"); [|done].
      injection Hval as <-. simpl. by rewrite Hnum.
  - simpl. by rewrite type_name_not_undefined, andb_false_r.
Qed.

(** C9: sanitizing a sanitized record changes nothing. *)
Theorem sanitize_idempotent_C9 (S : Schema) (R : Obj) :
  sanitize S (sanitize S R) = sanitize S R.
Proof.
  apply map_eq. intros key. rewrite !sanitize_lookup.
  destruct (S !! key) as [prop|] eqn:HS; simpl; [|done].
  unfold get at 1. rewrite sanitize_lookup, HS. simpl.
  apply sanitized_value_fixed.
Qed.

Lemma validate_fold_lookup validation_exists validation_isType
    (props : Schema) (body : Obj) (key : string) :
  foldl (validate_key validation_exists validation_isType props body) ∅
    (Object_keys props) !! key =
    props !! key ≫= λ prop,
      validation_error validation_exists validation_isType prop (get body key).
Proof.
  rewrite (foldl_pointwise _ (write_step (λ k, props !! k ≫= λ prop,
    validation_error validation_exists validation_isType prop (get body k)))).
  - rewrite foldl_write_lookup, lookup_empty.
    destruct (decide (key ∈ Object_keys props)) as [Hin|Hout].
    + by destruct (props !! key ≫= _).
    + rewrite elem_of_Object_keys, <-eq_None_not_Some in Hout. by rewrite Hout.
  - intros acc k. unfold validate_key, write_step, validation_error.
    destruct (props !! k) as [prop|]; simpl; [|done].
    by repeat case_match.
Qed.

Lemma validate_errors_lookup validation_exists validation_isType
    (props : Schema) (body : Obj) (key : string) :
  validate_errors validation_exists validation_isType (Some props) body !! key =
    props !! key ≫= λ prop,
      validation_error validation_exists validation_isType prop (get body key).
Proof.
  rewrite <-validate_fold_lookup.
  unfold validate_errors, validate. simpl.
  case_decide as Hempty; simpl; [|done]. by rewrite Hempty.
Qed.

(** C10: for a declared property without a [type], [validate] checks a
    supplied value against 'string' (and reports exactly what it would if
    the property were declared [string]), while [sanitize] never writes the
    property: a string that validation accepts is dropped all the same. *)
Theorem untyped_property_C10 (validation_exists : Value → bool)
    (validation_isType : Value → string → bool)
    (S : Schema) (R : Obj) (key : string) (prop : Property) :
  S !! key = Some prop →
  type prop = None →
  let errors := validate_errors validation_exists validation_isType (Some S) R in
  let val := get R key in
  errors !! key =
    (if validation_exists val then
       if validation_isType val "string" then None
       else Some (VString "must be a string")
     else if required prop then Some (VString "is required") else None) ∧
  (validate validation_exists validation_isType (Some S) R).2 =
    (validate validation_exists validation_isType
      (Some (<[key := {| type := Some TString; required := required prop |}]> S))
      R).2 ∧
  sanitize S R !! key = None ∧
  (∀ s, R !! key = Some (VString s) →
        validation_exists (VString s) = true →
        validation_isType (VString s) "string" = true →
        errors !! key = None ∧ sanitize S R !! key = None).
Proof.
  intros HS Htype errors val.
  assert (Herr : errors !! key =
    validation_error validation_exists validation_isType prop val).
  { unfold errors. by rewrite validate_errors_lookup, HS. }
  assert (Hsan : sanitize S R !! key = None).
  { rewrite sanitize_lookup, HS. simpl. unfold sanitized_value.
    by rewrite Htype. }
  split; [|split; [|split]].
  - rewrite Herr. unfold validation_error. rewrite Htype. simpl.
    by destruct (validation_exists val), (validation_isType val "string").
  - unfold validate. simpl. f_equal.
    assert (Hsame : ∀ (S1 S2 : Schema) (E1 E2 : Obj), E1 = E2 →
      (if decide (E1 = ∅) then None else Some E1) =
      (if decide (E2 = ∅) then None else Some E2)) by (by intros ???? ->).
    apply (Hsame S S). apply map_eq. intros k.
    rewrite !validate_fold_lookup.
    destruct (decide (k = key)) as [->|Hne].
    + rewrite HS, lookup_insert_eq. simpl.
      unfold validation_error. simpl. by rewrite Htype.
    + by rewrite lookup_insert_ne.
  - done.
  - intros s HR Hex Hty. split; [|done].
    rewrite Herr. unfold validation_error, val.
    rewrite (get_lookup _ _ _ HR), Htype, Hex. simpl. by rewrite Hty.
Qed.

(** ** remove *)

(** C6: a remove whose query has no [_id] (or that has no query at all)
    calls the callback with the error message and issues no store call. *)
Theorem remove_without_id_C6 (this : Collection) (session : Session)
    (query : option Obj) (fn : Callback) :
  (∀ q, query = Some q → q !! "_id" = None) →
  remove this session query fn = fn remove_error VUndefined ∧
  ∀ S (store : Store S) (s : S),
    perform store (remove this session query Reply) s =
      ([], Some (remove_error, VUndefined)).
Proof.
  intros Hno.
  assert (Hid : has_id query = false).
  { destruct query as [q|]; [|done]. simpl. unfold get. by rewrite (Hno q). }
  unfold remove. rewrite Hid. simpl. done.
Qed.

(** C7, as the code has it: with a truthy [_id] in the query, [remove]
    calls [store.find(query)]; it runs the Delete listener (on [null]) only
    when find reported no error, and calls [store.remove(query)] only when
    the listener threw nothing; an error of find or of the listener goes
    to the callback as it is and ends the operation; the answer of
    [store.remove] goes to the callback as it is. *)
Theorem remove_sequence_C7 (this : Collection) (session : Session) (q : Obj)
    S (store : Store S) (s : S) :
  truthy (get q "_id") = true →
  perform store (remove this session (Some q) Reply) s =
    match store_find store s q with
    | (_, None) => ([CalledFind q], None)
    | (s1, Some (err, _)) =>
        if truthy err then ([CalledFind q], Some (err, VUndefined))
        else
          match delete_listener this session with
          | (Some e, _) => ([CalledFind q], Some (VObject e, VUndefined))
          | (None, _) =>
              ([CalledFind q; CalledRemove q],
               match store_remove store s1 q with
               | (_, Some reply) => Some reply
               | (_, None) => None
               end)
          end
    end.
Proof.
  intros Hid. unfold remove. simpl. rewrite Hid. simpl.
  destruct (store_find store s q) as [s1 [[err result]|]]; [|done].
  destruct (truthy err) eqn:Herr; [done|].
  unfold execListener, asyncEval, delete_listener. simpl.
  destruct (run _ _ _) as [[e|] st']; simpl; [done|].
  by destruct (store_remove store s1 q) as [s2 [[err2 result2]|]].
Qed.

(** ** save *)

(** C5, as the code has it: with an item, an [_id] of the item that is
    truthy is moved into the query and deleted from the item; then exactly
    one store call is made, [update(query, item)] when the [_id] of the
    resolved query is truthy and [insert(item)] otherwise, and the store is
    handed the caller's callback. An omitted query counts as [{}]. Without
    an item the callback gets an error and no store call is made. *)
Theorem save_routes_C5 (this : Collection) (session : Session)
    (item : Obj) (query : option Obj) :
  let resolved := resolve_id (default ∅ query) item in
  let call :=
    if truthy (get resolved.1 "_id")
    then CalledUpdate resolved.1 resolved.2
    else CalledInsert resolved.2 in
  (∀ fn, save this session (Some item) (inl query) fn =
         if truthy (get resolved.1 "_id")
         then StoreUpdate resolved.1 resolved.2 fn
         else StoreInsert resolved.2 fn) ∧
  (∀ S (store : Store S) (s : S),
     (perform store (save this session (Some item) (inl query) Reply) s).1 = [call]) ∧
  (if truthy (get item "_id")
   then resolved.1 !! "_id" = item !! "_id" ∧ resolved.2 !! "_id" = None ∧
        call = CalledUpdate (<["_id" := get item "_id"]> (default ∅ query))
                 (delete "_id" item)
   else resolved = (default ∅ query, item)) ∧
  (∀ fn other, save this session (Some item) (inr fn) other =
               save this session (Some item) (inl None) fn) ∧
  (∀ fn S (store : Store S) (s : S),
     save this session None (inl query) fn = fn save_error VUndefined ∧
     perform store (save this session None (inl query) Reply) s =
       ([], Some (save_error, VUndefined))).
Proof.
  intros resolved call.
  assert (Hsave : ∀ fn, save this session (Some item) (inl query) fn =
    if truthy (get resolved.1 "_id")
    then StoreUpdate resolved.1 resolved.2 fn
    else StoreInsert resolved.2 fn).
  { intros fn. unfold save, resolved, resolve_id.
    by destruct (truthy (get item "_id")). }
  split; [done|]. split; [|split; [|split; [done|done]]].
  - intros S store s. rewrite Hsave. unfold call.
    destruct (truthy (get resolved.1 "_id")); simpl.
    + by destruct (store_update _ _ _ _) as [s1 [[err result]|]].
    + by destruct (store_insert _ _ _) as [s1 [[err result]|]].
  - unfold call, resolved, resolve_id.
    destruct (truthy (get item "_id")) eqn:Hid; [|done]. simpl.
    assert (Hsome : is_Some (item !! "_id")).
    { unfold get in Hid. by destruct (item !! "_id"). }
    destruct Hsome as [v Hv].
    unfold get in *. rewrite Hv in *. simpl in *.
    rewrite lookup_insert_eq. simpl. rewrite Hid. by rewrite lookup_delete_eq.
Qed.

(** ** The listener engine *)

(** Outside the Get wrapper a root session makes the three calls no-ops. *)
Lemma root_guards_no_effect (session : Session) (h : Hook) (st : State) :
  isRoot session = true →
  run (context session) h st = run (context session) (without_guards h) st.
Proof.
  intros Hroot. revert st.
  induction h as [|key val next IH|msg status next IH|property next IH
                 |property next IH|next IH]; intros st; simpl;
    rewrite ?Hroot; simpl; auto.
Qed.

Lemma protect_inert_intro (session : Session) (h : Hook) :
  isRoot session = true ∨ no_protect h → protect_inert session h.
Proof.
  intros Hor.
  induction h as [|key val next IH|msg status next IH|property next IH
                 |property next IH|next IH]; simpl in *; try tauto.
  intros v. apply IH. destruct Hor as [Hroot|Hnp]; auto.
Qed.

(** With [protect] inert, a run inside the Get wrapper neither reads nor
    writes [data]. *)
Lemma run_wrapper_frame (session : Session) (h : Hook) :
  protect_inert session h →
  ∀ st d,
    run (get_wrapper (context session)) h (set_data st d) =
      ((run (get_wrapper (context session)) h st).1,
       set_data (run (get_wrapper (context session)) h st).2 d).
Proof.
  induction h as [|key val next IH|msg status next IH|property next IH
                 |property next IH|next IH]; simpl; intros Hinert st d.
  - done.
  - exact (IH Hinert (set_errors st _) d).
  - destruct (isRoot session); simpl; [apply (IH Hinert)|done].
  - unfold delete_element. simpl.
    destruct (delete_property (element st) property) as [e|x]; [done|].
    exact (IH Hinert (set_element st x) d).
  - destruct Hinert as [-> Hinert]. simpl. apply (IH Hinert).
  - apply (IH _ (Hinert _)).
Qed.

Lemma run_wrapper_on_record (session : Session) (h : Hook) (st : State) :
  protect_inert session h →
  run (get_wrapper (context session)) h st =
    ((on_record session h (errors st) (element st)).1,
     set_data (on_record session h (errors st) (element st)).2 (data st)).
Proof.
  intros Hinert. unfold on_record.
  rewrite <-(run_wrapper_frame session h Hinert). by destruct st.
Qed.

(** The loop of the Get wrapper over an array without holes is the
    record-by-record application, in the order of the list. *)
Lemma forEach_per_record (session : Session) (h : Hook) (rest : list Value) :
  protect_inert session h →
  ∀ (before : list Value) (st : State),
    data st = VArray (Some <$> (before ++ rest)) →
    ∃ st',
      forEach_from (get_wrapper (context session)) h
        (seq (length before) (length rest)) st =
        ((per_record session h (errors st) rest).1.1, st') ∧
      errors st' = (per_record session h (errors st) rest).1.2 ∧
      data st' =
        VArray (Some <$> (before ++ (per_record session h (errors st) rest).2)).
Proof.
  intros Hinert. induction rest as [|record rest IH]; intros before st Hdata.
  - exists st. by simpl.
  - cbn [length seq forEach_from]. unfold forEach_step. rewrite Hdata.
    rewrite list_lookup_fmap, (list_lookup_middle _ _ _ _ eq_refl). simpl.
    rewrite (run_wrapper_on_record _ _ _ Hinert). simpl.
    destruct (on_record session h (errors st) record) as [thrown st1] eqn:Hrec.
    simpl. unfold write_back. simpl. rewrite Hdata.
    rewrite list_lookup_fmap, (list_lookup_middle _ _ _ _ eq_refl). simpl.
    assert (Hwritten :
      <[length before := Some (element st1)]> (Some <$> before ++ record :: rest)
      = Some <$> ((before ++ [element st1]) ++ rest)).
    { rewrite <-list_fmap_insert. f_equal.
      rewrite <-(Nat.add_0_r (length before)), insert_app_r. simpl.
      by rewrite <-app_assoc. }
    rewrite Hwritten.
    destruct thrown as [e|].
    + eexists. split; [done|]. simpl. split; [done|].
      by rewrite <-app_assoc.
    + destruct (IH (before ++ [element st1])
        (set_data st1 (VArray (Some <$> (before ++ [element st1]) ++ rest))) eq_refl)
        as (st' & Hloop & Herrors & Hdata').
      rewrite length_app, Nat.add_comm in Hloop. simpl in Hloop.
      simpl in Herrors, Hdata'.
      destruct (per_record session h (errors st1) rest) as [[thrown' errors'] rest'].
      exists st'. split; [exact Hloop|]. split; [exact Herrors|].
      simpl in Hdata' |- *. by rewrite Hdata', <-app_assoc.
Qed.

Lemma per_record_length (session : Session) (h : Hook) (records : list Value) :
  ∀ collected,
    length (per_record session h collected records).2 = length records.
Proof.
  induction records as [|record rest IH]; intros collected; simpl; [done|].
  destruct (on_record session h collected record) as [[e|] st]; simpl; [done|].
  specialize (IH (errors st)).
  destruct (per_record session h (errors st) rest) as [[thrown' errors'] rest'].
  simpl in *. by rewrite IH.
Qed.

Lemma per_record_hide (session : Session) (f : string) (objs : list Obj) :
  ∀ collected,
    per_record session (CallHide f Done) collected (VObject <$> objs) =
      (None, collected, VObject <$> (delete f <$> objs)).
Proof.
  induction objs as [|o objs IH]; intros collected; simpl; [done|].
  by rewrite IH.
Qed.

(** C4, as the code has it: on Get the listener's logic runs once for each
    record of the list, first to last, on that record alone; [hide(f)]
    removes field [f], and nothing else, from the record it runs on; all
    the applications share one error map, and the callback receives that
    map instead of the list as soon as any application has called [error],
    and otherwise the list of the records, each as its own application
    left it, in the original order. *)
Theorem get_listener_per_record_C4 (this : Collection) (session : Session)
    (h : Hook) (q : Obj) (records : list Value) :
  onGet (settings this) = Some h →
  isRoot session = true ∨ no_protect h →
  let applied := per_record session h None records in
  (∀ fn,
     execListener this Get session q (VArray (Some <$> records)) fn =
       fn (match applied.1.1 with Some e => VObject e | None => VUndefined end)
          (match applied.1.2 with
           | Some e => VObject e
           | None => VArray (Some <$> applied.2)
           end)) ∧
  length applied.2 = length records ∧
  (∀ f objs,
     h = CallHide f Done → records = VObject <$> objs →
     applied = (None, None, VObject <$> (delete f <$> objs)) ∧
     ∀ i o, objs !! i = Some o →
       ∃ o', applied.2 !! i = Some (VObject o') ∧
             o' !! f = None ∧ ∀ key, key ≠ f → o' !! key = o !! key).
Proof.
  intros Hget Hor applied.
  pose proof (protect_inert_intro _ _ Hor) as Hinert.
  split; [|split].
  - intros fn. unfold execListener, asyncEval, run_get. simpl. rewrite Hget. simpl.
    destruct (forEach_per_record session h records Hinert []
      {| errors := None; data := VArray (Some <$> records); element := VUndefined |}
      eq_refl) as (st' & Hloop & Herrors & Hdata).
    simpl in Hloop, Herrors, Hdata. rewrite length_fmap, Hloop.
    fold applied in Herrors, Hdata |- *. by rewrite Herrors, Hdata.
  - apply per_record_length.
  - intros f objs -> ->. unfold applied. rewrite per_record_hide.
    split; [done|]. intros i o Hi. exists (delete f o). simpl.
    rewrite !list_lookup_fmap, Hi. simpl. split; [done|].
    split; [apply lookup_delete_eq|]. intros key Hne. by apply lookup_delete_ne.
Qed.

(** ** save and the listeners *)

(** [save] consults neither the settings nor the properties. *)
Lemma save_any_collection (this this' : Collection) (session : Session)
    (item : option Obj) (query : option Obj + Callback) (fn : Callback) :
  save this session item query fn = save this' session item query fn.
Proof. reflexivity. Qed.

Lemma perform_insert S (store : Store S) (s : S) (item : Obj) :
  (perform store (StoreInsert item Reply) s).1 = [CalledInsert item].
Proof. simpl. by destruct (store_insert store s item) as [s1 [[err result]|]]. Qed.

(** C1 at [save(guest, {title: "x", extra: "y"}, {})] on a collection whose
    Post listener is [error("title", "bad")]: run on the item, the listener
    gives the error map [{title: "bad"}], and sanitizing the item drops
    [extra]; yet [save] issues [store.insert] with the item as it came. *)
Theorem save_bypasses_listener_C1 :
  execListener Example.post_rejects Post Example.guest ∅
    (VObject Example.new_item) Reply =
    Reply VUndefined (VObject {["title" := VString "bad"]}) ∧
  sanitize Example.titles Example.new_item = {["title" := VString "x"]} ∧
  save Example.post_rejects Example.guest (Some Example.new_item) (inl (Some ∅))
    Reply = StoreInsert Example.new_item Reply ∧
  ∀ S (store : Store S) (s : S),
    (perform store
       (save Example.post_rejects Example.guest (Some Example.new_item)
          (inl (Some ∅)) Reply) s).1 = [CalledInsert Example.new_item].
Proof.
  split; [reflexivity|]. split; [reflexivity|]. split; [reflexivity|].
  intros S store s.
  rewrite (save_any_collection _ Example.plain).
  apply perform_insert.
Qed.

(** C2 at [save(guest, {title: "x", extra: "y"}, {})] on a collection whose
    Post listener is [cancel("no")]: run on the item for this session, the
    listener throws the error "no"; yet [save] issues [store.insert]. *)
Theorem save_ignores_cancel_C2 :
  (∃ e, execListener Example.post_cancels Post Example.guest ∅
          (VObject Example.new_item) Reply =
          Reply (VObject e) (VObject Example.new_item) ∧
        e !! "message" = Some (VString "no")) ∧
  ∀ S (store : Store S) (s : S),
    (perform store
       (save Example.post_cancels Example.guest (Some Example.new_item)
          (inl (Some ∅)) Reply) s).1 = [CalledInsert Example.new_item].
Proof.
  split.
  - eexists. split; reflexivity.
  - intros S store s.
    rewrite (save_any_collection _ Example.plain).
    apply perform_insert.
Qed.

(** C3: in the context of [execListener] a root session turns [cancel],
    [hide] and [protect] into no-ops, so on Put the logic [hide("secret")]
    leaves the record as it is; on Get the same logic, for the same root
    session, takes the field off the record of the list. *)
Theorem root_hide_on_get_C3 :
  (∀ session h st,
     isRoot session = true →
     run (context session) h st = run (context session) (without_guards h) st) ∧
  isRoot Example.root = true ∧
  execListener Example.hides_secret Put Example.root ∅
    (VObject (Example.record "1" "a")) Reply =
    Reply VUndefined (VObject (Example.record "1" "a")) ∧
  execListener Example.hides_secret Get Example.root ∅
    (VArray [Some (VObject (Example.record "1" "a"))]) Reply =
    Reply VUndefined (VArray [Some (VObject {["id" := VString "1"]})]).
Proof.
  split; [apply root_guards_no_effect|]. split; [reflexivity|]. split.
  - unfold execListener, asyncEval.
    cbn [listener_of settings Example.hides_secret onPut default].
    by rewrite root_guards_no_effect.
  - reflexivity.
Qed.

(** C4 refuted at three records and a listener that calls
    [error("x", "bad")] on the second only: the callback receives the error
    map, not the list. *)
Lemma error_on_one_record_C4 :
  execListener Example.flags_second Get Example.guest ∅
    (VArray (Some <$> Example.three_records)) Reply =
    Reply VUndefined (VObject {["x" := VString "bad"]}).
Proof. reflexivity. Qed.

Lemma get_listener_per_record_C4_witness :
  onGet (settings Example.hides_secret) = Some (CallHide "secret" Done) ∧
  (isRoot Example.guest = true ∨ no_protect (CallHide "secret" Done)) ∧
  execListener Example.hides_secret Get Example.guest ∅
    (VArray (Some <$> Example.three_records)) Reply =
    Reply VUndefined
      (VArray [Some (VObject {["id" := VString "1"]});
               Some (VObject {["id" := VString "2"]});
               Some (VObject {["id" := VString "3"]})]).
Proof.
  split; [reflexivity|]. split; [right; exact I|].
  exact (proj1 (get_listener_per_record_C4 Example.hides_secret Example.guest
    (CallHide "secret" Done) ∅ Example.three_records eq_refl (or_intror I)) Reply).
Defined.

(** C5 refuted at the item [{_id: "", title: "x"}]: it carries an [_id],
    which is neither moved nor deleted, and the item is inserted; and at a
    call without an item, where neither [update] nor [insert] is called. *)
Lemma save_blank_id_C5 :
  Example.blank_id_item !! "_id" = Some (VString "") ∧
  save Example.plain Example.guest (Some Example.blank_id_item) (inl (Some ∅))
    Reply = StoreInsert Example.blank_id_item Reply ∧
  perform Example.ok_store
    (save Example.plain Example.guest None (inl (Some ∅)) Reply) tt =
    ([], Some (save_error, VUndefined)).
Proof. split; [|split]; reflexivity. Qed.

Lemma remove_without_id_C6_witness :
  (∀ q : Obj, Some (∅ : Obj) = Some q → q !! "_id" = None) ∧
  remove Example.plain Example.guest (Some ∅) Reply =
    Reply remove_error VUndefined ∧
  perform Example.ok_store (remove Example.plain Example.guest (Some ∅) Reply) tt =
    ([], Some (remove_error, VUndefined)).
Proof.
  assert (Hno : ∀ q : Obj, Some (∅ : Obj) = Some q → q !! "_id" = None).
  { intros q Hq. injection Hq as <-. reflexivity. }
  split; [exact Hno|].
  destruct (remove_without_id_C6 Example.plain Example.guest (Some ∅) Reply Hno)
    as [Hreply Hcalls].
  split; [exact Hreply|]. exact (Hcalls unit Example.ok_store tt).
Defined.

(** C7 refuted at the query [{_id: ""}]: it includes an [_id], and
    [store.find] is never called. *)
Lemma remove_blank_id_C7 :
  Example.blank_id_query !! "_id" = Some (VString "") ∧
  perform Example.ok_store
    (remove Example.plain Example.guest (Some Example.blank_id_query) Reply) tt =
    ([], Some (remove_error, VUndefined)).
Proof. split; reflexivity. Qed.

Lemma remove_sequence_C7_witness :
  truthy (get Example.query_42 "_id") = true ∧
  perform Example.ok_store
    (remove Example.plain Example.guest (Some Example.query_42) Reply) tt =
    ([CalledFind Example.query_42; CalledRemove Example.query_42],
     Some (VUndefined, VUndefined)).
Proof.
  split; [reflexivity|].
  exact (remove_sequence_C7 Example.plain Example.guest Example.query_42
    unit Example.ok_store tt eq_refl).
Defined.

Lemma untyped_property_C10_witness :
  Example.untyped !! "note" = Some {| type := None; required := false |} ∧
  validate Example.spec_exists Example.spec_isType (Some Example.untyped)
    Example.note_body = (Example.untyped, None) ∧
  sanitize Example.untyped Example.note_body = ∅.
Proof.
  split; [reflexivity|].
  pose proof (untyped_property_C10 Example.spec_exists Example.spec_isType
    Example.untyped Example.note_body "note"
    {| type := None; required := false |} eq_refl eq_refl) as (_ & _ & Hsan & _).
  split; [reflexivity|].
  apply map_eq. intros key. rewrite lookup_empty.
  destruct (decide (key = "note")) as [->|Hne]; [exact Hsan|].
  rewrite sanitize_lookup. unfold Example.untyped. by rewrite lookup_singleton_ne.
Defined.

(** ** The model on the examples of the source and of the specification *)

Example parseInt_examples :
  parseInt "42" = number_of_int false 42 ∧
  parseInt "  -12px" = number_of_int true 12 ∧
  parseInt "0x1F" = number_of_int false 31 ∧
  parseInt "3.7" = number_of_int false 3 ∧
  parseInt "abc" = NaN.
Proof. repeat split. Qed.

Example sanitize_age :
  sanitize Example.ages Example.age_body = {["age" := VNumber (parseInt "42")]}.
Proof. reflexivity. Qed.

(** [parseInt] as numbers: after U+2009 and U+FEFF; in hexadecimal; on a
    negative zero; on 2^53 + 1 and 2^53 + 3, both ties, rounded to the even
    mantissa; on 10^309, beyond the largest double; and where there is no
    numeral to read. *)
Example parseInt_numbers :
  integer_of (parseInt "42") = Some 42%Z ∧
  integer_of (parseInt (bytes [226; 128; 137; 239; 187; 191]%nat ++ "+7")%string)
    = Some 7%Z ∧
  integer_of (parseInt "-0XfFg") = Some (-255)%Z ∧
  parseInt "-0" = S754_zero true ∧
  parseInt "9007199254740993" = S754_finite false 4503599627370496 1 ∧
  integer_of (parseInt "9007199254740995") = Some 9007199254740996%Z ∧
  parseInt ("1" ++ joined (replicate 309 "0"))%string = S754_infinity false ∧
  parseInt "0x" = NaN ∧
  parseInt "+ 1" = NaN ∧
  parseInt "" = NaN.
Proof. repeat split; vm_compute; reflexivity. Qed.

(** [save(session, {_id: "42", title: "x"}, {}, cb)] calls
    [update({_id: "42"}, {title: "x"}, cb)]. *)
Example save_with_id_updates :
  save Example.plain Example.guest
    (Some (<["_id" := VString "42"]> {["title" := VString "x"]}))
    (inl (Some ∅)) Reply =
  StoreUpdate {["_id" := VString "42"]} {["title" := VString "x"]} Reply.
Proof. reflexivity. Qed.

(** The example of [execListener]'s doc comment: [onPost: 'error("foo",
    "must not be bar")'] on [{foo: 'bar'}]. *)
Example execListener_doc_example :
  execListener
    {| settings :=
         {| onGet := None;
            onPost := Some (CallError "foo" (VString "must not be bar") Done);
            onPut := None; onDelete := None; onValidate := None |};
       properties := None |}
    Post Example.guest ∅ (VObject {["foo" := VString "bar"]}) Reply =
  Reply VUndefined (VObject {["foo" := VString "must not be bar"]}).
Proof. reflexivity. Qed.

(** A non-root [hide] on Delete meets [null]: the listener fails and
    [store.remove] is not called. *)
Example remove_hide_on_null :
  (perform Example.ok_store
     (remove
        {| settings :=
             {| onGet := None; onPost := None; onPut := None;
                onDelete := Some (CallHide "secret" Done); onValidate := None |};
           properties := None |}
        Example.guest (Some Example.query_42) Reply) tt).1 =
  [CalledFind Example.query_42].
Proof. reflexivity. Qed.

(** * Further properties of the code *)

(** ** validate and sanitize *)

Lemma typeof_not_date_array (v : Value) (t : PropType) :
  type_name t = typeof v → t ≠ TDate ∧ t ≠ TArray.
Proof. by destruct v, t. Qed.

(** Every field of a sanitized record is declared with a type, and its
    [typeof] is that type; no field declared as date or array is ever
    kept. *)
Theorem sanitize_output_typed (S : Schema) (R : Obj) (key : string) (v : Value) :
  sanitize S R !! key = Some v →
  ∃ prop t,
    S !! key = Some prop ∧ type prop = Some t ∧
    typeof v = type_name t ∧ t ≠ TDate ∧ t ≠ TArray.
Proof.
  rewrite sanitize_lookup.
  destruct (S !! key) as [prop|]; simpl; [|done].
  unfold sanitized_value.
  destruct (type prop) as [t|] eqn:Ht; simpl; [|done].
  destruct (String.eqb (type_name t) (typeof (get R key))) eqn:Hsame.
  - intros [= <-]. apply String.eqb_eq in Hsame.
    exists prop, t. by destruct (typeof_not_date_array _ _ Hsame).
  - destruct (String.eqb (type_name t) "number") eqn:Hnum; simpl; [|done].
    destruct (String.eqb (typeof (get R key)) "string"); [|done].
    intros [= <-]. exists prop, t. destruct t; by try discriminate.
Qed.

Lemma sanitize_output_typed_witness :
  sanitize Example.ages Example.age_body !! "age" = Some (VNumber (parseInt "42")) ∧
  ∃ prop t,
    Example.ages !! "age" = Some prop ∧ type prop = Some t ∧
    typeof (VNumber (parseInt "42")) = type_name t ∧ t ≠ TDate ∧ t ≠ TArray.
Proof.
  split; [reflexivity|].
  exact (sanitize_output_typed Example.ages Example.age_body "age"
    (VNumber (parseInt "42")) eq_refl).
Defined.

(** [sanitize] reads the body under the declared names only: two bodies
    that agree there are sanitized to the same record. *)
Theorem sanitize_reads_declared_only (S : Schema) (R R' : Obj) :
  (∀ key, is_Some (S !! key) → R !! key = R' !! key) →
  sanitize S R = sanitize S R'.
Proof.
  intros Hagree. apply map_eq. intros key. rewrite !sanitize_lookup.
  destruct (S !! key) as [prop|] eqn:HS; simpl; [|done].
  unfold get. by rewrite (Hagree key) by (by rewrite HS).
Qed.

Lemma sanitize_reads_declared_only_witness :
  (∀ key, is_Some (Example.titles !! key) →
     Example.new_item !! key = ({["title" := VString "x"]} : Obj) !! key) ∧
  sanitize Example.titles Example.new_item =
    sanitize Example.titles {["title" := VString "x"]}.
Proof.
  assert (Hagree : ∀ key, is_Some (Example.titles !! key) →
    Example.new_item !! key = ({["title" := VString "x"]} : Obj) !! key).
  { intros key [prop Hkey]. unfold Example.titles in Hkey.
    apply lookup_singleton_Some in Hkey as [<- _]. reflexivity. }
  split; [exact Hagree|].
  exact (sanitize_reads_declared_only Example.titles Example.new_item _ Hagree).
Defined.

(** [validate] returns nothing exactly when every declared property has
    either a value that exists and is of its type ([string] when none is
    declared) or no value and is not required; the error map has entries
    under declared names only, and fields of the body that are not
    declared play no part. *)
Theorem validate_passes_iff (validation_exists : Value → bool)
    (validation_isType : Value → string → bool) (S : Schema) (R : Obj) :
  let passes (prop : Property) (val : Value) :=
    if validation_exists val
    then validation_isType val (type_or_string (type prop))
    else negb (required prop) in
  ((validate validation_exists validation_isType (Some S) R).2 = None ↔
   ∀ key prop, S !! key = Some prop → passes prop (get R key) = true) ∧
  (∀ errors key,
     (validate validation_exists validation_isType (Some S) R).2 = Some errors →
     is_Some (errors !! key) →
     ∃ prop, S !! key = Some prop ∧ passes prop (get R key) = false) ∧
  (∀ R', (∀ key, is_Some (S !! key) → R !! key = R' !! key) →
         validate validation_exists validation_isType (Some S) R' =
         validate validation_exists validation_isType (Some S) R).
Proof.
  intros passes.
  assert (Hpass : ∀ prop val,
    validation_error validation_exists validation_isType prop val = None ↔
    passes prop val = true).
  { intros prop val. unfold validation_error, passes.
    destruct (validation_exists val).
    - by destruct (validation_isType val _).
    - by destruct (required prop). }
  split; [|split].
  - unfold validate. simpl. case_decide as Hempty; simpl.
    + split; [|done]. intros _ key prop HS. apply Hpass.
      pose proof (validate_fold_lookup validation_exists validation_isType S R key)
        as Hkey.
      rewrite Hempty, lookup_empty, HS in Hkey. by simpl in Hkey.
    + split; [done|]. intros Hall. exfalso. apply Hempty.
      apply map_eq. intros key. rewrite validate_fold_lookup, lookup_empty.
      destruct (S !! key) as [prop|] eqn:HS; simpl; [|done].
      by apply Hpass, Hall.
  - intros errors key Hres [e He].
    assert (Hlook : validate_errors validation_exists validation_isType
      (Some S) R !! key = Some e).
    { unfold validate_errors. by rewrite Hres. }
    rewrite validate_errors_lookup in Hlook.
    destruct (S !! key) as [prop|]; simpl in Hlook; [|done].
    exists prop. split; [done|].
    destruct (passes prop (get R key)) eqn:Hp; [|done].
    apply Hpass in Hp. by rewrite Hp in Hlook.
  - intros R' Hagree. unfold validate. simpl.
    assert (Hsame :
      foldl (validate_key validation_exists validation_isType S R') ∅
        (Object_keys S) =
      foldl (validate_key validation_exists validation_isType S R) ∅
        (Object_keys S)).
    { apply map_eq. intros key. rewrite !validate_fold_lookup.
      destruct (S !! key) as [prop|] eqn:HS; simpl; [|done].
      unfold get. by rewrite (Hagree key) by (by rewrite HS). }
    by rewrite Hsame.
Qed.

(** ** execListener *)

(** [execListener] makes no store call: it ends in one call of its
    callback. *)
Lemma execListener_calls_back (this : Collection) (method : Method)
    (session : Session) (q : Obj) (item : Value) :
  ∃ err result, ∀ fn, execListener this method session q item fn = fn err result.
Proof.
  unfold execListener, asyncEval.
  destruct method;
    match goal with
    | |- context [let '(_, _) := ?r in _] => destruct r as [thrown st']
    end; by eexists _, _.
Qed.

Lemma delete_property_length (v v' : Value) (property : string) :
  delete_property v property = inr v' → array_length v' = array_length v.
Proof.
  destruct v; simpl; try (by intros [= <-]); try done.
  destruct (array_index property); intros [= <-]; simpl; [|done].
  by rewrite length_insert.
Qed.

(** No call of a listener changes whether [data] is an array, nor its
    length, inside the Get wrapper or outside. *)
Lemma run_array_length (session : Session) (wrapped : bool) (h : Hook) :
  ∀ st,
    array_length
      (data (run (if wrapped then get_wrapper (context session)
                  else context session) h st).2) =
    array_length (data st).
Proof.
  assert (Hdel : ∀ property st st',
    delete_data property st = inr st' →
    array_length (data st') = array_length (data st)).
  { intros property st st'. unfold delete_data.
    destruct (delete_property (data st) property) as [e|d] eqn:Hd; [done|].
    intros [= <-]. simpl. by apply delete_property_length in Hd. }
  induction h as [|key val next IH|msg status next IH|property next IH
                 |property next IH|next IH]; intros st.
  - done.
  - destruct wrapped; simpl; by rewrite IH.
  - destruct wrapped; simpl; destruct (isRoot session); simpl; by rewrite ?IH.
  - destruct wrapped; simpl.
    + unfold delete_element.
      destruct (delete_property (element st) property); [done|]. by rewrite IH.
    + destruct (isRoot session); simpl; [by rewrite IH|].
      destruct (delete_data property st) as [e|st'] eqn:Hd; [done|].
      rewrite IH. by apply Hdel in Hd.
  - destruct wrapped; simpl; (destruct (isRoot session); simpl; [by rewrite IH|]);
      (destruct (delete_data property st) as [e|st'] eqn:Hd; [done|]);
      rewrite IH; by apply Hdel in Hd.
  - destruct wrapped; simpl; apply IH.
Qed.

Lemma write_back_length (k : nat) (st : State) :
  array_length (data (write_back k st)) = array_length (data st).
Proof.
  unfold write_back. destruct (data st) as [| |b|n|s|o|elems|ms] eqn:Hd; try by rewrite Hd.
  destruct (elems !! k) as [[x|]|]; simpl; rewrite ?Hd; simpl; [|done|done].
  by rewrite length_insert.
Qed.

Lemma forEach_from_length (session : Session) (h : Hook) (ks : list nat) :
  ∀ st,
    array_length
      (data (forEach_from (get_wrapper (context session)) h ks st).2) =
    array_length (data st).
Proof.
  induction ks as [|k ks IH]; intros st; simpl; [done|].
  assert (Hstep : array_length
    (data (forEach_step (get_wrapper (context session)) h st k).2) =
    array_length (data st)).
  { unfold forEach_step. destruct (data st) as [| |b|n|s|o|elems|ms] eqn:Hd;
      try (simpl; by rewrite Hd).
    destruct (elems !! k) as [[item|]|]; simpl; rewrite ?Hd; try done.
    pose proof (run_array_length session true h (set_element st item)) as Hrun.
    simpl in Hrun.
    destruct (run (get_wrapper (context session)) h (set_element st item))
      as [thrown st'].
    simpl in *. by rewrite write_back_length, Hrun, Hd. }
  destruct (forEach_step (get_wrapper (context session)) h st k) as [[e|] st'];
    simpl in *; [done|]. by rewrite IH.
Qed.

(** On Get the callback receives either the error map or an array as long
    as the one passed in, whatever the listener does and whoever asks:
    records are never added or dropped (a non-root [protect] can at most
    leave a hole). *)
Theorem get_keeps_length (this : Collection) (session : Session) (q : Obj)
    (elems : list (option Value)) :
  ∃ err result,
    (∀ fn, execListener this Get session q (VArray elems) fn = fn err result) ∧
    ((∃ e, result = VObject e) ∨ array_length result = Some (length elems)).
Proof.
  pose proof (forEach_from_length session
    (default Done (onGet (settings this))) (seq 0 (length elems))
    (initial (VArray elems))) as Hlen.
  unfold execListener, asyncEval, run_get. simpl.
  destruct (forEach_from _ _ _ _) as [thrown st'].
  eexists _, _. split; [done|]. simpl in Hlen.
  destruct (errors st'); [left; by eexists|by right].
Qed.

(** Outside the Get wrapper [hide] and [protect] are one and the same:
    exchanging them in a listener's logic changes nothing, for any session
    and any item. *)
Theorem hide_protect_alike (this this' : Collection) (method : Method)
    (session : Session) (q : Obj) (item : Value) (h : Hook) (fn : Callback) :
  method ≠ Get →
  listener_of (settings this) method = Some h →
  listener_of (settings this') method = Some (swap_hide_protect h) →
  execListener this' method session q item fn =
  execListener this method session q item fn.
Proof.
  intros Hmethod Hh Hswap.
  assert (Hrun : ∀ st,
    run (context session) (swap_hide_protect h) st = run (context session) h st).
  { clear. induction h as [|key val next IH|msg status next IH|property next IH
                          |property next IH|next IH]; intros st; simpl; auto.
    - destruct (isRoot session); simpl; auto.
    - destruct (isRoot session); simpl; auto.
      destruct (delete_data property st); auto.
    - destruct (isRoot session); simpl; auto.
      destruct (delete_data property st); auto. }
  unfold execListener, asyncEval. rewrite Hh, Hswap.
  destruct method; try done; cbn [default]; by rewrite Hrun.
Qed.

Lemma hide_protect_alike_witness :
  Put ≠ Get ∧
  execListener (only_listener Put (CallProtect "secret" Done))
    Put Example.guest ∅ (VObject (Example.record "1" "a")) Reply =
  Reply VUndefined (VObject {["id" := VString "1"]}).
Proof.
  split; [discriminate|].
  exact (hide_protect_alike Example.hides_secret
    (only_listener Put (CallProtect "secret" Done)) Put Example.guest ∅
    (VObject (Example.record "1" "a")) (CallHide "secret" Done) Reply
    ltac:(discriminate) eq_refl eq_refl).
Defined.

Lemma error_calls_run (session : Session) (calls : list (string * Value)) :
  ∀ st,
    run (context session) (error_calls calls) st =
      (None,
       match calls with
       | [] => st
       | _ =>
           set_errors st
             (foldl (λ m c, <[c.1 := or_else c.2 (VBool true)]> m)
                (default ∅ (errors st)) calls)
       end).
Proof.
  induction calls as [|[key val] rest IH]; intros st; simpl; [done|].
  rewrite IH. by destruct rest.
Qed.

Lemma last_error_lookup (calls : list (string * Value)) :
  ∀ (m : Obj) (key : string),
    foldl (λ m c, <[c.1 := or_else c.2 (VBool true)]> m) m calls !! key =
      match last_error key calls with
      | Some v => Some v
      | None => m !! key
      end.
Proof.
  induction calls as [|[k v] rest IH]; intros m key; simpl; [done|].
  rewrite IH. destruct (last_error key rest); [done|].
  destruct (String.eqb k key) eqn:Hk.
  - apply String.eqb_eq in Hk as ->. by rewrite lookup_insert_eq.
  - apply String.eqb_neq in Hk. by rewrite lookup_insert_ne.
Qed.

(** A listener that only calls [error] never fails and leaves the item
    alone, for root sessions as for any other: the callback receives the
    error map, which holds for each key the value of the last call made
    with it, [true] standing in for a falsy value. *)
Theorem error_calls_collected (this : Collection) (method : Method)
    (session : Session) (q : Obj) (item : Value)
    (calls : list (string * Value)) :
  method ≠ Get →
  calls ≠ [] →
  listener_of (settings this) method = Some (error_calls calls) →
  ∃ collected : Obj,
    (∀ fn, execListener this method session q item fn =
           fn VUndefined (VObject collected)) ∧
    ∀ key, collected !! key = last_error key calls.
Proof.
  intros Hmethod Hcalls Hh.
  exists (foldl (λ m c, <[c.1 := or_else c.2 (VBool true)]> m) ∅ calls). split.
  - intros fn. unfold execListener, asyncEval. rewrite Hh. cbn [default]. unfold id.
    pose proof (error_calls_run session calls (initial item)) as Hrun.
    unfold initial in Hrun.
    destruct method; try done; rewrite Hrun; by destruct calls.
  - intros key. rewrite last_error_lookup, lookup_empty.
    by destruct (last_error key calls).
Qed.

Lemma error_calls_collected_witness :
  Post ≠ Get ∧
  [("title", VString "bad"); ("title", VString ""); ("done", VNull)] ≠ [] ∧
  ∃ collected : Obj,
    (∀ fn,
       execListener
         (only_listener Post (error_calls
            [("title", VString "bad"); ("title", VString ""); ("done", VNull)]))
         Post Example.root ∅ (VObject Example.new_item) fn =
       fn VUndefined (VObject collected)) ∧
    ∀ key, collected !! key =
      last_error key
        [("title", VString "bad"); ("title", VString ""); ("done", VNull)].
Proof.
  split; [discriminate|]. split; [discriminate|].
  exact (error_calls_collected
    (only_listener Post (error_calls
       [("title", VString "bad"); ("title", VString ""); ("done", VNull)]))
    Post Example.root ∅ (VObject Example.new_item)
    [("title", VString "bad"); ("title", VString ""); ("done", VNull)]
    ltac:(discriminate) ltac:(discriminate) eq_refl).
Defined.

(** ** find *)

Lemma forEach_from_nothing (session : Session) (ks : list nat) :
  ∀ st,
    ∃ st',
      forEach_from (get_wrapper (context session)) Done ks st = (None, st') ∧
      errors st' = errors st ∧ data st' = data st.
Proof.
  induction ks as [|k ks IH]; intros st; simpl; [by exists st|].
  unfold forEach_step.
  destruct (data st) as [| |b|n|s|o|elems|ms] eqn:Hd;
    try (rewrite <-Hd; apply IH).
  destruct (elems !! k) as [[item|]|] eqn:Hk; try (rewrite <-Hd; apply IH).
  simpl. unfold write_back. simpl. rewrite Hd, Hk.
  destruct (IH (set_data (set_element st item)
    (VArray (<[k := Some item]> elems)))) as (st' & Hloop & Herrors & Hdata).
  exists st'. split; [done|]. split; [done|].
  rewrite Hdata. simpl. by rewrite list_insert_id.
Qed.

(** [find] makes one store call, [find(query)], whatever the listener and
    the store do; an error of the store goes to the callback as it is,
    with no result. *)
Theorem find_one_store_call (this : Collection) (session : Session) (q : Obj)
    S (store : Store S) (s : S) :
  (perform store (find this session q Reply) s).1 = [CalledFind q] ∧
  ∀ s' err result,
    store_find store s q = (s', Some (err, result)) →
    truthy err = true →
    (perform store (find this session q Reply) s).2 = Some (err, VUndefined).
Proof.
  unfold find. simpl. split.
  - destruct (store_find store s q) as [s' [[err result]|]]; [|done].
    destruct (truthy err); [done|].
    destruct (execListener_calls_back this Get session q result)
      as (e & r & Hcall).
    by rewrite Hcall.
  - intros s' err result -> Herr. by rewrite Herr.
Qed.

(** With no Get listener configured, [find] hands the store's list to the
    callback as it is, holes included. *)
Theorem find_without_listener (this : Collection) (session : Session) (q : Obj)
    S (store : Store S) (s s' : S) (err : Value) (elems : list (option Value)) :
  onGet (settings this) = None →
  store_find store s q = (s', Some (err, VArray elems)) →
  truthy err = false →
  perform store (find this session q Reply) s =
    ([CalledFind q], Some (VUndefined, VArray elems)).
Proof.
  intros Hget Hfind Herr. unfold find. simpl. rewrite Hfind, Herr.
  unfold execListener, asyncEval, run_get. simpl. rewrite Hget. simpl.
  destruct (forEach_from_nothing session (seq 0 (length elems))
    (initial (VArray elems))) as (st' & Hloop & Herrors & Hdata).
  unfold initial in Hloop. rewrite Hloop. simpl.
  by rewrite Herrors, Hdata.
Qed.

Lemma find_without_listener_witness :
  onGet (settings Example.plain) = None ∧
  truthy VNull = false ∧
  perform (finds (VArray [Some (VString "a"); None]))
    (find Example.plain Example.guest ∅ Reply) tt =
    ([CalledFind ∅], Some (VUndefined, VArray [Some (VString "a"); None])).
Proof.
  split; [reflexivity|]. split; [reflexivity|].
  exact (find_without_listener Example.plain Example.guest ∅ unit
    (finds (VArray [Some (VString "a"); None]))
    tt tt VNull [Some (VString "a"); None] eq_refl eq_refl eq_refl).
Defined.

(** When the store's result is not an array (a single record, say), the
    Get wrapper's [this.forEach] fails: [find] calls back with a TypeError,
    with or without a listener. *)
Theorem find_needs_array (this : Collection) (session : Session) (q : Obj)
    S (store : Store S) (s s' : S) (err result : Value) :
  store_find store s q = (s', Some (err, result)) →
  truthy err = false →
  array_length result = None →
  ∃ e,
    perform store (find this session q Reply) s =
      ([CalledFind q], Some (VObject e, result)) ∧
    e !! "name" = Some (VString "TypeError").
Proof.
  intros Hfind Herr Hresult. unfold find. simpl. rewrite Hfind, Herr.
  unfold execListener, asyncEval, run_get. simpl.
  destruct result; try discriminate; simpl; by eexists.
Qed.

Lemma find_needs_array_witness :
  truthy VNull = false ∧
  array_length (VObject (Example.record "1" "a")) = None ∧
  ∃ e,
    perform (finds (VObject (Example.record "1" "a")))
      (find Example.hides_secret Example.guest Example.query_42 Reply) tt =
      ([CalledFind Example.query_42],
       Some (VObject e, VObject (Example.record "1" "a"))) ∧
    e !! "name" = Some (VString "TypeError").
Proof.
  split; [reflexivity|]. split; [reflexivity|].
  exact (find_needs_array Example.hides_secret Example.guest Example.query_42 unit
    (finds (VObject (Example.record "1" "a")))
    tt tt VNull (VObject (Example.record "1" "a")) eq_refl eq_refl eq_refl).
Defined.

(** ** remove *)

(** [remove] issues no store call, or [find(query)] alone, or [find(query)]
    followed by [remove(query)]: never an insert or an update, and never a
    removal that no find came before. *)
Theorem remove_store_calls (this : Collection) (session : Session)
    (query : option Obj) S (store : Store S) (s : S) :
  let q := default ∅ query in
  let calls := (perform store (remove this session query Reply) s).1 in
  calls = [] ∨ calls = [CalledFind q] ∨ calls = [CalledFind q; CalledRemove q].
Proof.
  intros q calls. unfold calls, remove.
  destruct (has_id query); simpl; [|by left].
  fold q. destruct (store_find store s q) as [s1 [[err result]|]]; [|by right; left].
  destruct (truthy err); [by right; left|].
  destruct (execListener_calls_back this Delete session q VNull) as (e & r & Hcall).
  rewrite Hcall. destruct (truthy e); [by right; left|].
  right; right. simpl.
  by destruct (store_remove store s1 q) as [s2 [[err2 result2]|]].
Qed.

Lemma no_guards_run (session : Session) (h : Hook) :
  no_guards h →
  ∀ st, (run (context session) h st).1 = None ∧
        data (run (context session) h st).2 = data st.
Proof.
  induction h as [|key val next IH|msg status next IH|property next IH
                 |property next IH|next IH]; simpl; intros Hno st; try done.
  - exact (IH Hno (set_errors st _)).
  - apply (IH _ (Hno _)).
Qed.

(** The errors a Delete listener records do not stop a removal: when the
    listener calls nothing but [error], [remove] goes on to
    [store.remove(query)], and the error map is dropped. *)
Theorem remove_ignores_recorded_errors (this : Collection) (session : Session)
    (h : Hook) (q : Obj) S (store : Store S) (s s1 : S) (err result : Value) :
  onDelete (settings this) = Some h →
  no_guards h →
  truthy (get q "_id") = true →
  store_find store s q = (s1, Some (err, result)) →
  truthy err = false →
  perform store (remove this session (Some q) Reply) s =
    ([CalledFind q; CalledRemove q], (store_remove store s1 q).2).
Proof.
  intros Hh Hno Hid Hfind Herr. unfold remove. simpl.
  rewrite Hid. simpl. rewrite Hfind, Herr.
  unfold execListener, asyncEval. simpl. rewrite Hh. simpl.
  destruct (no_guards_run session h Hno (initial VNull)) as [Hthrown _].
  unfold initial in Hthrown.
  destruct (run (context session) h _) as [thrown st']. simpl in Hthrown.
  rewrite Hthrown. simpl.
  by destruct (store_remove store s1 q) as [s2 [[err2 result2]|]].
Qed.

Lemma remove_ignores_recorded_errors_witness :
  no_guards (error_calls [("owner", VString "not yours")]) ∧
  truthy (get Example.query_42 "_id") = true ∧
  perform Example.ok_store
    (remove (only_listener Delete (error_calls [("owner", VString "not yours")]))
       Example.guest (Some Example.query_42) Reply) tt =
    ([CalledFind Example.query_42; CalledRemove Example.query_42],
     Some (VUndefined, VUndefined)).
Proof.
  split; [exact I|]. split; [reflexivity|].
  exact (remove_ignores_recorded_errors
    (only_listener Delete (error_calls [("owner", VString "not yours")]))
    Example.guest (error_calls [("owner", VString "not yours")])
    Example.query_42 unit Example.ok_store tt tt VUndefined VUndefined
    eq_refl I eq_refl eq_refl eq_refl).
Defined.

(** For a session that is not root every [cancel], [hide] and [protect] a
    Delete listener gets to call throws (the item is [null]); so when the
    listener ends without an error it has run as the logic without these
    calls runs. *)
Theorem delete_guards_throw (this : Collection) (session : Session) :
  isRoot session = false →
  (∀ msg status property next st,
     data st = VNull →
     is_Some (run (context session) (CallCancel msg status next) st).1 ∧
     is_Some (run (context session) (CallHide property next) st).1 ∧
     is_Some (run (context session) (CallProtect property next) st).1) ∧
  ((delete_listener this session).1 = None →
   delete_listener this session =
     run (context session)
       (without_guards (default Done (onDelete (settings this))))
       (initial VNull)).
Proof.
  intros Hroot. split.
  - intros msg status property next st Hdata. simpl. rewrite Hroot. simpl.
    unfold delete_data. rewrite Hdata. simpl. by repeat split.
  - unfold delete_listener, initial.
    generalize (default Done (onDelete (settings this))). intros h.
    assert (Hgen : ∀ st, data st = VNull →
      (run (context session) h st).1 = None →
      run (context session) h st = run (context session) (without_guards h) st).
    { induction h as [|key val next IH|msg status next IH|property next IH
                     |property next IH|next IH]; intros st Hdata; simpl.
      - done.
      - apply IH. done.
      - by rewrite Hroot.
      - rewrite Hroot. simpl. unfold delete_data. by rewrite Hdata.
      - rewrite Hroot. simpl. unfold delete_data. by rewrite Hdata.
      - by apply IH. }
    by apply Hgen.
Qed.

Lemma delete_guards_throw_witness :
  isRoot Example.guest = false ∧
  is_Some (run (context Example.guest) (CallHide "secret" Done) (initial VNull)).1.
Proof.
  split; [reflexivity|].
  exact (proj1 (proj2 (proj1 (delete_guards_throw Example.plain Example.guest eq_refl)
    "" VUndefined "secret" Done (initial VNull) eq_refl))).
Defined.

(** ** save *)

(** Whatever [save] is given, the item it hands to the store has no truthy
    [_id], an update is always addressed by a truthy [_id], and an [_id]
    of the item wins over one of the query. *)
Theorem save_store_arguments (this : Collection) (session : Session)
    (item : Obj) (query : option Obj) S (store : Store S) (s : S) :
  ∃ call,
    (perform store (save this session (Some item) (inl query) Reply) s).1 = [call] ∧
    match call with
    | CalledInsert i =>
        truthy (get i "_id") = false ∧ truthy (get (default ∅ query) "_id") = false
    | CalledUpdate q i =>
        truthy (get q "_id") = true ∧ truthy (get i "_id") = false ∧
        (truthy (get item "_id") = true → get q "_id" = get item "_id")
    | _ => False
    end.
Proof.
  unfold save.
  destruct (truthy (get item "_id")) eqn:Hid.
  - assert (Hq : get (<["_id" := get item "_id"]> (default ∅ query)) "_id" =
                 get item "_id").
    { unfold get at 1. by rewrite lookup_insert_eq. }
    rewrite Hq, Hid. eexists. split.
    + simpl. by destruct (store_update _ _ _ _) as [s1 [[err result]|]].
    + simpl. rewrite Hq. split; [done|]. split; [|done].
      unfold get. by rewrite lookup_delete_eq.
  - destruct (truthy (get (default ∅ query) "_id")) eqn:Hq; eexists; split.
    + simpl. by destruct (store_update _ _ _ _) as [s1 [[err result]|]].
    + simpl. by rewrite Hid.
    + simpl. by destruct (store_insert _ _ _) as [s1 [[err result]|]].
    + done.
Qed.

(** ** clean *)

Lemma foldl_insert_lookup {A} (write : string → option A) (keys : list string)
    (acc : gmap string A) (key : string) :
  foldl (λ acc k, match write k with Some x => <[k := x]> acc | None => acc end)
    acc keys !! key =
    if decide (key ∈ keys)
    then match write key with Some x => Some x | None => acc !! key end
    else acc !! key.
Proof.
  revert acc. induction keys as [|k keys IH]; intros acc.
  - destruct (decide (key ∈ [])) as [Hin|]; [|done]. by apply elem_of_nil in Hin.
  - cbn [foldl]. rewrite IH.
    destruct (decide (key = k)) as [->|Hne].
    + destruct (decide (k ∈ k :: keys)) as [_|Hout];
        [|exfalso; apply Hout, list_elem_of_here].
      destruct (write k) as [x|] eqn:Hw.
      * destruct (decide (k ∈ keys)); [done|]. by rewrite lookup_insert_eq.
      * by destruct (decide (k ∈ keys)).
    + assert (Hacc : match write k with Some x => <[k:=x]> acc | None => acc end
                     !! key = acc !! key).
      { destruct (write k); [by rewrite lookup_insert_ne|done]. }
      rewrite Hacc.
      destruct (decide (key ∈ keys)) as [Hin|Hout],
        (decide (key ∈ k :: keys)) as [Hin'|Hout']; try done.
      * exfalso. apply Hout'. by apply list_elem_of_further.
      * exfalso. apply elem_of_cons in Hin' as [?|?]; done.
Qed.

Lemma cleaned_of_lookup (prev : Resources.Resource) (key : string) :
  Resources.own (Resources.cleaned_of prev) !! key =
    match Resources.proto prev !! key with
    | Some _ =>
        if Resources.is_function (Resources.member prev key)
        then Some (Resources.Forwarder (Resources.own prev) (Resources.proto prev) key)
        else None
    | None => None
    end.
Proof.
  unfold Resources.cleaned_of. simpl.
  rewrite (foldl_pointwise _ (λ acc k,
    match (if Resources.is_function (Resources.member prev k)
           then Some (Resources.Forwarder (Resources.own prev)
                        (Resources.proto prev) k)
           else None) with
    | Some x => <[k := x]> acc
    | None => acc
    end)).
  - rewrite foldl_insert_lookup, lookup_empty.
    destruct (decide (key ∈ Object_keys (Resources.proto prev))) as [Hin|Hout].
    + apply elem_of_Object_keys in Hin as [m ->].
      by destruct (Resources.is_function _).
    + rewrite elem_of_Object_keys, <-eq_None_not_Some in Hout. by rewrite Hout.
  - intros acc k. unfold Resources.clean_key.
    by destruct (Resources.is_function _).
Qed.

Lemma clean_resources_lookup (names : list string) :
  NoDup names →
  ∀ (resources : gmap string Resources.Resource) (name : string),
    foldl Resources.clean_resource resources names !! name =
      if decide (name ∈ names)
      then Resources.cleaned_of <$> resources !! name
      else resources !! name.
Proof.
  induction 1 as [|k names Hk Hnames IH]; intros resources name.
  - destruct (decide (name ∈ [])) as [Hin|]; [|done]. by apply elem_of_nil in Hin.
  - cbn [foldl]. rewrite IH.
    assert (Hstep : ∀ n, Resources.clean_resource resources k !! n =
      if decide (n = k) then Resources.cleaned_of <$> resources !! k
      else resources !! n).
    { intros n. unfold Resources.clean_resource.
      destruct (resources !! k) as [prev|] eqn:Hprev.
      - destruct (decide (n = k)) as [->|Hne];
          [by rewrite lookup_insert_eq|by rewrite lookup_insert_ne].
      - destruct (decide (n = k)) as [->|Hne]; [by rewrite Hprev|done]. }
    rewrite Hstep.
    destruct (decide (name = k)) as [->|Hne].
    + destruct (decide (k ∈ names)); [done|].
      destruct (decide (k ∈ k :: names)) as [_|Hout]; [done|].
      exfalso. apply Hout, list_elem_of_here.
    + destruct (decide (name ∈ names)) as [Hin|Hout],
        (decide (name ∈ k :: names)) as [Hin'|Hout']; try done.
      * exfalso. apply Hout'. by apply list_elem_of_further.
      * exfalso. apply elem_of_cons in Hin' as [?|?]; done.
Qed.

Lemma clean_fmap (resources : gmap string Resources.Resource) :
  Resources.clean (Some resources) = Some (Resources.cleaned_of <$> resources).
Proof.
  unfold Resources.clean. f_equal. apply map_eq. intros name.
  rewrite clean_resources_lookup by apply NoDup_fst_map_to_list.
  rewrite lookup_fmap.
  destruct (decide (name ∈ Object_keys resources)) as [Hin|Hout]; [done|].
  rewrite elem_of_Object_keys, <-eq_None_not_Some in Hout. by rewrite Hout.
Qed.

(** [clean] keeps the names of the resources and puts in the place of each
    an object with no prototype properties that holds, under exactly the
    prototype's names at which the resource has a function, a function
    forwarding to that resource and name: values, and functions the
    resource has only as own properties, are left out. *)
Theorem clean_keeps_prototype_functions
    (resources : gmap string Resources.Resource) :
  ∃ cleaned,
    Resources.clean (Some resources) = Some cleaned ∧
    ∀ name,
      match resources !! name with
      | None => cleaned !! name = None
      | Some prev =>
          ∃ c, cleaned !! name = Some c ∧ Resources.proto c = ∅ ∧
            ∀ key,
              Resources.own c !! key =
                match Resources.proto prev !! key with
                | Some _ =>
                    if Resources.is_function (Resources.member prev key)
                    then Some (Resources.Forwarder (Resources.own prev)
                                 (Resources.proto prev) key)
                    else None
                | None => None
                end
      end.
Proof.
  exists (Resources.cleaned_of <$> resources). split; [apply clean_fmap|].
  intros name. rewrite lookup_fmap.
  destruct (resources !! name) as [prev|]; simpl; [|done].
  exists (Resources.cleaned_of prev). split; [done|]. split; [done|].
  apply cleaned_of_lookup.
Qed.

(** Cleaning what [clean] returned leaves every resource an empty object:
    the objects [clean] builds have no prototype properties for a second
    pass to go through. *)
Theorem clean_twice_empties (resources : gmap string Resources.Resource) :
  Resources.clean (Resources.clean (Some resources)) =
    Some ((λ _, Resources.empty_object) <$> resources).
Proof.
  rewrite !clean_fmap. f_equal. rewrite <-map_fmap_compose.
  apply map_fmap_ext. intros name prev _. reflexivity.
Qed.

(** ** handle *)

Lemma perform_responsive {S} (store : Store S) (a : Action) :
  responsive store → ∀ s, is_Some (perform store a s).2.
Proof.
  intros (Hfind & Hinsert & Hupdate & Hremove).
  induction a as [q cb IH|i cb IH|q i cb IH|q cb IH|err result]; intros s; simpl.
  - destruct (Hfind s q) as [[e r] Hr].
    destruct (store_find store s q) as [s1 reply]. simpl in Hr. subst reply.
    specialize (IH e r s1). by destruct (perform store (cb e r) s1).
  - destruct (Hinsert s i) as [[e r] Hr].
    destruct (store_insert store s i) as [s1 reply]. simpl in Hr. subst reply.
    specialize (IH e r s1). by destruct (perform store (cb e r) s1).
  - destruct (Hupdate s q i) as [[e r] Hr].
    destruct (store_update store s q i) as [s1 reply]. simpl in Hr. subst reply.
    specialize (IH e r s1). by destruct (perform store (cb e r) s1).
  - destruct (Hremove s q) as [[e r] Hr].
    destruct (store_remove store s q) as [s1 reply]. simpl in Hr. subst reply.
    specialize (IH e r s1). by destruct (perform store (cb e r) s1).
  - by eexists.
Qed.

(** A request whose method is none of GET, POST, PUT and DELETE (as
    spelled, in capitals) gets no answer at all and reaches no store. *)
Theorem serve_unknown_method (JSON_stringify : Value → Obj + string)
    S (store : Store S) (this : Collection) (req : Transport.Request) (s : S) :
  Transport.method req ≠ "GET" → Transport.method req ≠ "POST" →
  Transport.method req ≠ "PUT" → Transport.method req ≠ "DELETE" →
  Transport.serve JSON_stringify store this req s = ([], []).
Proof.
  intros Hget Hpost Hput Hdelete. unfold Transport.serve, Transport.handle.
  apply String.eqb_neq in Hget, Hpost, Hput, Hdelete.
  by rewrite Hget, Hpost, Hput, Hdelete.
Qed.

Lemma serve_unknown_method_witness :
  "PATCH" ≠ "GET" ∧
  Transport.serve (λ _, inr "") Example.ok_store Example.plain
    {| Transport.method := "PATCH"; Transport.query := ∅;
       Transport.body := Some Example.new_item |} tt = ([], []).
Proof.
  split; [discriminate|].
  exact (serve_unknown_method (λ _, inr "") unit Example.ok_store Example.plain
    {| Transport.method := "PATCH"; Transport.query := ∅;
       Transport.body := Some Example.new_item |} tt
    ltac:(discriminate) ltac:(discriminate) ltac:(discriminate)
    ltac:(discriminate)).
Defined.

(** When the store answers every call, a GET, POST, PUT or DELETE request
    gets exactly one answer: [res.error(err)], or [res.end()] with no
    header and no body, or the two headers followed by [res.end(resBody)],
    the content length being the length of the body sent. *)
Theorem serve_answers_once (JSON_stringify : Value → Obj + string)
    S (store : Store S) (this : Collection) (req : Transport.Request) (s : S) :
  responsive store →
  Transport.method req ∈ ["GET"; "POST"; "PUT"; "DELETE"] →
  let answer := (Transport.serve JSON_stringify store this req s).2 in
  (∃ err, answer = [Transport.ResError err]) ∨
  answer = [Transport.ResEnd None] ∨
  ∃ resBody,
    answer =
      [Transport.ResSetHeader "content-type" (Transport.HeaderText "application/json");
       Transport.ResSetHeader "content-length"
         (Transport.HeaderLength (String.length resBody));
       Transport.ResEnd (Some resBody)].
Proof.
  intros Hstore Hmethod answer.
  assert (Haction : ∃ action, Transport.handle this req = Some action).
  { unfold Transport.handle.
    repeat (apply elem_of_cons in Hmethod as [->|Hmethod]; [by eexists|]).
    by apply elem_of_nil in Hmethod. }
  destruct Haction as [action Haction]. unfold answer, Transport.serve.
  rewrite Haction.
  destruct (perform_responsive store action Hstore s) as [[err result] Hreply].
  destruct (perform store action s) as [calls reply]. simpl in Hreply.
  subst reply. simpl. unfold Transport.fn.
  destruct (truthy err); [left; by eexists|].
  destruct (truthy result); [|by right; left].
  destruct (JSON_stringify result) as [e|resBody];
    [left; by eexists|right; right; by eexists].
Qed.

Lemma ok_store_responsive : responsive Example.ok_store.
Proof. repeat split; intros; by eexists. Qed.

Lemma serve_answers_once_witness :
  responsive Example.ok_store ∧
  "DELETE" ∈ ["GET"; "POST"; "PUT"; "DELETE"] ∧
  (Transport.serve (λ _, inr "") Example.ok_store Example.plain
     {| Transport.method := "DELETE"; Transport.query := Example.query_42;
        Transport.body := None |} tt).2 = [Transport.ResEnd None].
Proof.
  split; [exact ok_store_responsive|].
  assert (Hmethod : "DELETE" ∈ ["GET"; "POST"; "PUT"; "DELETE"]).
  { do 3 apply list_elem_of_further. apply list_elem_of_here. }
  split; [exact Hmethod|].
  destruct (serve_answers_once (λ _, inr "") unit Example.ok_store Example.plain
    {| Transport.method := "DELETE"; Transport.query := Example.query_42;
       Transport.body := None |} tt ok_store_responsive
    Hmethod) as [[err Herr]|[Hend|[resBody Hbody]]].
  - discriminate Herr.
  - exact Hend.
  - discriminate Hbody.
Defined.

(** The two precondition failures as a client sees them: a DELETE whose
    query has no truthy [_id], and a POST or PUT without a body, are
    answered by [res.error] with the message, and no store call is made. *)
Theorem serve_precondition_errors (JSON_stringify : Value → Obj + string)
    S (store : Store S) (this : Collection) (req : Transport.Request) (s : S) :
  (Transport.method req = "DELETE" →
   truthy (get (Transport.query req) "_id") = false →
   Transport.serve JSON_stringify store this req s =
     ([], [Transport.ResError remove_error])) ∧
  (Transport.method req = "POST" ∨ Transport.method req = "PUT" →
   Transport.body req = None →
   Transport.serve JSON_stringify store this req s =
     ([], [Transport.ResError save_error])).
Proof.
  split.
  - intros Hm Hid. unfold Transport.serve, Transport.handle, remove.
    rewrite Hm. simpl. by rewrite Hid.
  - intros Hm Hbody. unfold Transport.serve, Transport.handle, save.
    rewrite Hbody. by destruct Hm as [-> | ->].
Qed.

(** Requests are never served as root: over [handle] a Get listener's
    [cancel] always takes effect. When the store finds a list whose first
    slot holds a record and the listener begins with [cancel(msg,
    status)], the answer is [res.error] with that message and status. *)
Theorem serve_get_cancel (JSON_stringify : Value → Obj + string)
    S (store : Store S) (this : Collection) (req : Transport.Request) (s s' : S)
    (msg : string) (status err item : Value) (next : Hook)
    (rest : list (option Value)) :
  Transport.method req = "GET" →
  onGet (settings this) = Some (CallCancel msg status next) →
  store_find store s (Transport.query req) =
    (s', Some (err, VArray (Some item :: rest))) →
  truthy err = false →
  Transport.serve JSON_stringify store this req s =
    ([CalledFind (Transport.query req)],
     [Transport.ResError (VObject (<["status" := status]> (new_Error "Error" msg)))]).
Proof.
  intros Hm Hget Hfind Herr.
  unfold Transport.serve, Transport.handle, find. rewrite Hm. simpl.
  rewrite Hfind, Herr.
  unfold execListener, asyncEval, run_get. simpl. rewrite Hget. simpl.
  reflexivity.
Qed.

Lemma serve_get_cancel_witness :
  truthy VNull = false ∧
  Transport.serve (λ _, inr "")
    (finds (VArray [Some (VObject (Example.record "1" "a"))]))
    (only_listener Get (CallCancel "no" (VString "401") Done))
    {| Transport.method := "GET"; Transport.query := ∅; Transport.body := None |}
    tt =
    ([CalledFind ∅],
     [Transport.ResError
        (VObject (<["status" := VString "401"]> (new_Error "Error" "no")))]).
Proof.
  split; [reflexivity|].
  exact (serve_get_cancel (λ _, inr "") unit
    (finds (VArray [Some (VObject (Example.record "1" "a"))]))
    (only_listener Get (CallCancel "no" (VString "401") Done))
    {| Transport.method := "GET"; Transport.query := ∅; Transport.body := None |}
    tt tt "no" (VString "401") VNull (VObject (Example.record "1" "a")) Done []
    eq_refl eq_refl eq_refl eq_refl).
Defined.
